(** * Pod filters: [GeneratePodFilterFunc] of pkg/domain/filters/pods.go

    A shallow embedding of the pod-filter compiler.  A filter request is a
    family name and a list of values; compiling it yields either a
    predicate over pods or an error.  The Go function closes over
    [filterValues]; here every closure is a named function that takes the
    captured variables as its first arguments. *)

From Stdlib Require Import String Ascii List Bool ZArith Lia.
Import ListNotations.
Open Scope string_scope.

(** ** Go values *)

(** A Go [error]: either a plain message ([errors.New], [fmt.Errorf] without
    a wrapping verb) or a message wrapped around an inner error. *)
Inductive error : Type :=
| errorString (s : string)
| wrapError (msg : string) (inner : error).

(** The [Error()] method. *)
Definition Error (e : error) : string :=
  match e with
  | errorString s => s
  | wrapError msg _ => msg
  end.

(** A Go result pair [(value, err)] in which exactly one side is set. *)
Inductive result (A : Type) : Type :=
| Ok (a : A)
| Err (err : error).
Arguments Ok {A} a.
Arguments Err {A} err.

Fixpoint error_eqb (a b : error) : bool :=
  match a, b with
  | errorString s, errorString t => String.eqb s t
  | wrapError m i, wrapError n j => String.eqb m n && error_eqb i j
  | _, _ => false
  end.

(** [errors.Is]: is [target] somewhere in the chain of [err]?  Go compares
    sentinel errors by identity; the model compares them structurally. *)
Fixpoint errors_Is (err target : error) : bool :=
  error_eqb err target ||
  match err with
  | errorString _ => false
  | wrapError _ inner => errors_Is inner target
  end.

(** [fmt.Errorf] applied to a format with no wrapping verb; the argument is
    the formatted message. *)
Definition fmt_Errorf (msg : string) : error := errorString msg.

(** ** The Go standard library, as far as the filters use it *)

(** [strings.HasPrefix s prefix]. *)
Definition strings_HasPrefix (s prefix : string) : bool := String.prefix prefix s.

Definition lowerByte (c : ascii) : ascii :=
  let n := nat_of_ascii c in
  if (65 <=? n)%nat && (n <=? 90)%nat then ascii_of_nat (n + 32) else c.

(** [strings.ToLower] on the bytes of a string: the letters A to Z are
    mapped to a to z.  Go also maps letters outside ASCII.  The filters
    lower-case two kinds of strings: query values on the prefix path, which
    are made of hex digits, and the status a pod reports, an English word. *)
Fixpoint strings_ToLower (s : string) : string :=
  match s with
  | EmptyString => EmptyString
  | String c rest => String (lowerByte c) (strings_ToLower rest)
  end.

Definition digitValue (c : ascii) : option Z :=
  let n := Z.of_nat (nat_of_ascii c) in
  if (48 <=? n)%Z && (n <=? 57)%Z then Some (n - 48)%Z else None.

Fixpoint parseDigits (s : string) (acc : Z) : option Z :=
  match s with
  | EmptyString => Some acc
  | String c rest =>
      match digitValue c with
      | Some d => parseDigits rest (acc * 10 + d)%Z
      | None => None
      end
  end.

Definition intSize : Z := 64.
Definition maxInt : Z := (2 ^ (intSize - 1) - 1)%Z.
Definition minInt : Z := (- 2 ^ (intSize - 1))%Z.

Definition ErrSyntax : error := errorString "strconv.Atoi: invalid syntax".
Definition ErrRange : error := errorString "strconv.Atoi: value out of range".

(** [strconv.Atoi]: an optional sign followed by at least one decimal
    digit and nothing else; a value outside the range of [int] is an
    error.  The error texts are abridged (Go quotes the input in them). *)
Definition strconv_Atoi (s : string) : result Z :=
  match s with
  | EmptyString => Err ErrSyntax
  | String c rest =>
      let neg := Ascii.eqb c "-" in
      let body := if neg || Ascii.eqb c "+" then rest else s in
      match body with
      | EmptyString => Err ErrSyntax
      | _ =>
          match parseDigits body 0 with
          | None => Err ErrSyntax
          | Some n =>
              let v := if neg then (- n)%Z else n in
              if (minInt <=? v)%Z && (v <=? maxInt)%Z then Ok v else Err ErrRange
          end
      end
  end.

(** [time.Time] as an instant on the integer line; [t.Before(u)]. *)
Definition Time : Type := Z.
Definition Time_Before (t u : Time) : bool := (t <? u)%Z.

(** [cutil.StringInSlice] of containers/common. *)
Definition cutil_StringInSlice (s : string) (sl : list string) : bool :=
  existsb (fun i => String.eqb i s) sl.

(** ** libpod/define *)

Definition isHexDigit (c : ascii) : bool :=
  let n := nat_of_ascii c in
  ((48 <=? n) && (n <=? 57) || (97 <=? n) && (n <=? 102) || (65 <=? n) && (n <=? 70))%nat.

(** Modelled from the spec: [define.NotHexRegex] is declared in
    libpod/define, outside the file at hand.  The spec calls it the
    non-hex detector: a value passes it untouched when it contains only hex
    digits, of any length including empty.  So [MatchString] finds a
    character that is no hex digit. *)
Definition define_NotHexRegex_MatchString (s : string) : bool :=
  existsb (fun c => negb (isHexDigit c)) (list_ascii_of_string s).

(** Modelled from the spec: [define.ContainerStatus] and its [String]
    method are declared in libpod/define, outside the file at hand.  The
    states are the raw states the spec names: the two that the ctr-status
    filter renames (configured, stopped) and the ones its vocabulary shares
    with the raw states. *)
Inductive define_ContainerStatus : Type :=
| ContainerStateUnknown
| ContainerStateConfigured
| ContainerStateCreated
| ContainerStateRunning
| ContainerStateStopped
| ContainerStatePaused
| ContainerStateExited.

Definition ContainerStatus_String (t : define_ContainerStatus) : string :=
  match t with
  | ContainerStateUnknown => "unknown"
  | ContainerStateConfigured => "configured"
  | ContainerStateCreated => "created"
  | ContainerStateRunning => "running"
  | ContainerStateStopped => "stopped"
  | ContainerStatePaused => "paused"
  | ContainerStateExited => "exited"
  end.

Definition ContainerStatus_eqb (a b : define_ContainerStatus) : bool :=
  match a, b with
  | ContainerStateUnknown, ContainerStateUnknown
  | ContainerStateConfigured, ContainerStateConfigured
  | ContainerStateCreated, ContainerStateCreated
  | ContainerStateRunning, ContainerStateRunning
  | ContainerStateStopped, ContainerStateStopped
  | ContainerStatePaused, ContainerStatePaused
  | ContainerStateExited, ContainerStateExited => true
  | _, _ => false
  end.

(** The sentinel the network backend wraps when a name resolves to nothing. *)
Definition define_ErrNoSuchNetwork : error := errorString "network not found".

(** ** The entity model the filters read *)

Module Container.
Record t : Type := {
  Name : string;
  Networks : result (list string)
}.
End Container.

Module Network.
Record t : Type := { Name : string }.
End Network.

(** [r.Network().NetworkInspect(name)]. *)
Module Runtime.
Record t : Type := { NetworkInspect : string -> result Network.t }.
End Runtime.

(** A pod, as its accessors answer at one evaluation.  [Status] lists the
    states of the children in the order the loop visits them. *)
Module Pod.
Record t : Type := {
  ID : string;
  Name : string;
  CreatedTime : Time;
  Labels : list (string * string);
  AllContainersByID : result (list string);
  AllContainers : result (list Container.t);
  Status : result (list define_ContainerStatus);
  GetPodStatus : result string;
  InfraContainer : result Container.t
}.
End Pod.

(** ** Helpers the filters consume opaquely

    The regular-expression engine of Go's [regexp] package and three
    helpers of other packages: the filters only call them. *)
Class Externals : Type := {
  Regexp : Type;
  regexp_Compile : string -> result Regexp;
  Regexp_MatchString : Regexp -> string -> bool;
  util_StringMatchRegexSlice : string -> list string -> bool;
  filters_MatchLabelFilters : list string -> list (string * string) -> bool;
  util_ComputeUntilTimestamp : list string -> result Time
}.

Section Filters.
Context {E : Externals}.

(** [regexp.MatchString(pattern, s)]: compile, then search. *)
Definition regexp_MatchString (pattern s : string) : result bool :=
  match regexp_Compile pattern with
  | Err err => Err err
  | Ok re => Ok (Regexp_MatchString re s)
  end.

(** *** ctr-ids (lines 24-50) *)

(** The loop over [filterValues], lines 29-49. *)
Fixpoint ctrIdsLoop (ctrIds filterValues : list string) : bool :=
  match filterValues with
  | [] => false
  | want :: rest =>
      let isRegex := define_NotHexRegex_MatchString want in
      if isRegex then
        match regexp_Compile want with
        | Err _ => false
        | Ok re =>
            if existsb (fun id => Regexp_MatchString re id) ctrIds then true
            else ctrIdsLoop ctrIds rest
        end
      else
        if existsb (fun id => strings_HasPrefix id (strings_ToLower want)) ctrIds then true
        else ctrIdsLoop ctrIds rest
  end.

Definition filterCtrIds (filterValues : list string) (p : Pod.t) : bool :=
  match Pod.AllContainersByID p with
  | Err _ => false
  | Ok ctrIds => ctrIdsLoop ctrIds filterValues
  end.

(** *** ctr-names (lines 52-61): the loop body returns at once. *)
Definition filterCtrNames (filterValues : list string) (p : Pod.t) : bool :=
  match Pod.AllContainers p with
  | Err _ => false
  | Ok ctrs =>
      match ctrs with
      | ctr :: _ => util_StringMatchRegexSlice (Container.Name ctr) filterValues
      | [] => false
      end
  end.

(** *** ctr-number (lines 63-78) *)
Fixpoint ctrNumberLoop (len : Z) (filterValues : list string) : bool :=
  match filterValues with
  | [] => false
  | filterValue :: rest =>
      match strconv_Atoi filterValue with
      | Err _ => false
      | Ok fVint => if (len =? fVint)%Z then true else ctrNumberLoop len rest
      end
  end.

Definition filterCtrNumber (filterValues : list string) (p : Pod.t) : bool :=
  match Pod.AllContainersByID p with
  | Err _ => false
  | Ok ctrIds => ctrNumberLoop (Z.of_nat (length ctrIds)) filterValues
  end.

(** *** ctr-status (lines 79-107) *)

(** The validation loops of lines 80-84 and 128-132: the first value
    outside [valid] ends compilation with an error naming it. *)
Fixpoint checkValues (valid : list string) (what : string) (filterValues : list string)
  : option error :=
  match filterValues with
  | [] => None
  | filterValue :: rest =>
      if negb (cutil_StringInSlice filterValue valid)
      then Some (fmt_Errorf (filterValue ++ what))
      else checkValues valid what rest
  end.

Definition ctrStatusValues : list string :=
  ["created"; "running"; "paused"; "stopped"; "exited"; "unknown"].

(** Lines 91-96: the name a child state is compared under. *)
Definition ctrStatusState (ctrStatus : define_ContainerStatus) : string :=
  let state := ContainerStatus_String ctrStatus in
  if ContainerStatus_eqb ctrStatus ContainerStateConfigured then "created"
  else if ContainerStatus_eqb ctrStatus ContainerStateStopped then "exited"
  else state.

(** Lines 98-100: the query value a state is compared with. *)
Definition ctrStatusValue (filterValue : string) : string :=
  if String.eqb filterValue "stopped" then "exited" else filterValue.

Definition filterCtrStatus (filterValues : list string) (p : Pod.t) : bool :=
  match Pod.Status p with
  | Err _ => false
  | Ok ctrStatuses =>
      existsb (fun ctrStatus =>
                 let state := ctrStatusState ctrStatus in
                 existsb (fun filterValue => String.eqb state (ctrStatusValue filterValue))
                         filterValues)
              ctrStatuses
  end.

(** *** id (lines 109-122) *)
Definition idMatches (id want : string) : bool :=
  let isRegex := define_NotHexRegex_MatchString want in
  if isRegex then
    match regexp_MatchString want id with
    | Ok match_ => match_
    | Err _ => false
    end
  else strings_HasPrefix id (strings_ToLower want).

Definition filterId (filterValues : list string) (p : Pod.t) : bool :=
  existsb (fun want => idMatches (Pod.ID p) want) filterValues.

(** *** name (lines 124-126) *)
Definition filterName (filterValues : list string) (p : Pod.t) : bool :=
  util_StringMatchRegexSlice (Pod.Name p) filterValues.

(** *** status (lines 127-144) *)
Definition podStatusValues : list string :=
  ["stopped"; "running"; "paused"; "exited"; "dead"; "created"; "degraded"].

Definition filterStatus (filterValues : list string) (p : Pod.t) : bool :=
  match Pod.GetPodStatus p with
  | Err _ => false
  | Ok status =>
      existsb (fun filterValue => String.eqb (strings_ToLower status) filterValue)
              filterValues
  end.

(** *** label (lines 146-149) *)
Definition filterLabel (filterValues : list string) (p : Pod.t) : bool :=
  let labels := Pod.Labels p in
  filters_MatchLabelFilters filterValues labels.

(** *** until (lines 151-160) *)
Definition filterUntil (filterValues : list string) (p : Pod.t) : bool :=
  match util_ComputeUntilTimestamp filterValues with
  | Err _ => false
  | Ok until => if Time_Before (Pod.CreatedTime p) until then true else false
  end.

(** *** network (lines 161-190) *)

(** The resolution loop of lines 163-172, [inputNetNames] threaded through. *)
Fixpoint resolveNetNames (r : Runtime.t) (filterValues inputNetNames : list string)
  : result (list string) :=
  match filterValues with
  | [] => Ok inputNetNames
  | val :: rest =>
      match Runtime.NetworkInspect r val with
      | Err err =>
          if errors_Is err define_ErrNoSuchNetwork
          then resolveNetNames r rest inputNetNames
          else Err err
      | Ok net => resolveNetNames r rest (inputNetNames ++ [Network.Name net])
      end
  end.

Definition filterNetwork (inputNetNames : list string) (p : Pod.t) : bool :=
  match Pod.InfraContainer p with
  | Err _ => false
  | Ok infra =>
      match Container.Networks infra with
      | Err _ => false
      | Ok networks =>
          if (length networks =? 0)%nat then false
          else existsb (fun net => cutil_StringInSlice net inputNetNames) networks
      end
  end.

(** *** The dispatcher (lines 20-193) *)
Definition GeneratePodFilterFunc (filter : string) (filterValues : list string)
    (r : Runtime.t) : result (Pod.t -> bool) :=
  if String.eqb filter "ctr-ids" then Ok (filterCtrIds filterValues)
  else if String.eqb filter "ctr-names" then Ok (filterCtrNames filterValues)
  else if String.eqb filter "ctr-number" then Ok (filterCtrNumber filterValues)
  else if String.eqb filter "ctr-status" then
    match checkValues ctrStatusValues " is not a valid status" filterValues with
    | Some err => Err err
    | None => Ok (filterCtrStatus filterValues)
    end
  else if String.eqb filter "id" then Ok (filterId filterValues)
  else if String.eqb filter "name" then Ok (filterName filterValues)
  else if String.eqb filter "status" then
    match checkValues podStatusValues " is not a valid pod status" filterValues with
    | Some err => Err err
    | None => Ok (filterStatus filterValues)
    end
  else if String.eqb filter "label" then Ok (filterLabel filterValues)
  else if String.eqb filter "until" then Ok (filterUntil filterValues)
  else if String.eqb filter "network" then
    match resolveNetNames r filterValues [] with
    | Err err => Err err
    | Ok inputNetNames => Ok (filterNetwork inputNetNames)
    end
  else Err (fmt_Errorf (filter ++ " is an invalid filter")).

End Filters.

(** The families the switch of [GeneratePodFilterFunc] has a case for. *)
Definition families : list string :=
  ["ctr-ids"; "ctr-names"; "ctr-number"; "ctr-status"; "id"; "name";
   "status"; "label"; "until"; "network"].

(** What it means for a predicate of family [filter] to meet a failing
    lookup at pod [p]: the accessor its body calls answers with an error.
    The families id, name and label call no accessor that can fail. *)
Inductive accessorFails {E : Externals} (filterValues : list string) (p : Pod.t)
  : string -> Prop :=
| fails_ctr_ids err :
    Pod.AllContainersByID p = Err err -> accessorFails filterValues p "ctr-ids"
| fails_ctr_names err :
    Pod.AllContainers p = Err err -> accessorFails filterValues p "ctr-names"
| fails_ctr_number err :
    Pod.AllContainersByID p = Err err -> accessorFails filterValues p "ctr-number"
| fails_ctr_status err :
    Pod.Status p = Err err -> accessorFails filterValues p "ctr-status"
| fails_status err :
    Pod.GetPodStatus p = Err err -> accessorFails filterValues p "status"
| fails_until err :
    util_ComputeUntilTimestamp filterValues = Err err -> accessorFails filterValues p "until"
| fails_infra err :
    Pod.InfraContainer p = Err err -> accessorFails filterValues p "network"
| fails_networks infra err :
    Pod.InfraContainer p = Ok infra -> Container.Networks infra = Err err ->
    accessorFails filterValues p "network".

(** A value that does not stop the ctr-ids loop: it is hex, or it is a
    regular expression that compiles. *)
Definition compiles {E : Externals} (want : string) : Prop :=
  define_NotHexRegex_MatchString want = true -> exists re, regexp_Compile want = Ok re.

(** A value [strconv.Atoi] accepts. *)
Definition parses (filterValue : string) : Prop :=
  exists n, strconv_Atoi filterValue = Ok n.

(** A value made of hex digits only; the empty value is one. *)
Definition onlyHexDigits (want : string) : Prop :=
  forall c, In c (list_ascii_of_string want) -> isHexDigit c = true.

(** The canonical names a request resolves to when no lookup fails hard:
    the names of the values the registry knows, in request order. *)
Definition resolvedNames (r : Runtime.t) (filterValues : list string) : list string :=
  flat_map (fun val => match Runtime.NetworkInspect r val with
                       | Ok net => [Network.Name net]
                       | Err _ => []
                       end) filterValues.

(** A lookup that aborts compilation: an error that is not "no such network". *)
Definition hardFailure (r : Runtime.t) (val : string) (err : error) : Prop :=
  Runtime.NetworkInspect r val = Err err /\ errors_Is err define_ErrNoSuchNetwork = false.

(** ** A small instance for the examples

    A regular-expression engine for a fragment of Go's syntax: literal
    characters, [.] for any character, and a postfix star on either.  Every
    other metacharacter is rejected, as Go rejects an unclosed group. *)
Module Sample.

Inductive atom : Type := Lit (c : ascii) | AnyChar.

Definition piece : Type := (atom * bool)%type.

Definition isMeta (c : ascii) : bool :=
  existsb (Ascii.eqb c) (list_ascii_of_string "\+*?()|[]{}^$").

Fixpoint parsePieces (s : string) : option (list piece) :=
  match s with
  | EmptyString => Some []
  | String c rest =>
      if isMeta c then None
      else
        let a := if Ascii.eqb c "." then AnyChar else Lit c in
        match rest with
        | String star rest' =>
            if Ascii.eqb star "*"
            then option_map (cons (a, true)) (parsePieces rest')
            else option_map (cons (a, false)) (parsePieces rest)
        | EmptyString => Some [(a, false)]
        end
  end.

Definition atomMatches (a : atom) (c : ascii) : bool :=
  match a with
  | Lit d => Ascii.eqb d c
  | AnyChar => true
  end.

Fixpoint matchHere (ps : list piece) (text : string) : bool :=
  match ps with
  | [] => true
  | (a, false) :: ps' =>
      match text with
      | EmptyString => false
      | String c t => atomMatches a c && matchHere ps' t
      end
  | (a, true) :: ps' =>
      (fix star (text : string) : bool :=
         matchHere ps' text ||
         match text with
         | EmptyString => false
         | String c t => atomMatches a c && star t
         end) text
  end.

Fixpoint matchAnywhere (ps : list piece) (text : string) : bool :=
  matchHere ps text ||
  match text with
  | EmptyString => false
  | String _ t => matchAnywhere ps t
  end.

Definition compile (pattern : string) : result (list piece) :=
  match parsePieces pattern with
  | Some ps => Ok ps
  | None => Err (errorString ("error parsing regexp: " ++ pattern))
  end.

Definition matchRegexSlice (s : string) (res : list string) : bool :=
  existsb (fun r => match compile r with
                    | Ok ps => matchAnywhere ps s
                    | Err _ => false
                    end) res.

Definition matchLabels (filterValues : list string) (labels : list (string * string)) : bool :=
  forallb (fun v => existsb (fun kv => String.eqb (fst kv) v) labels) filterValues.

Definition untilTimestamp (filterValues : list string) : result Time :=
  match filterValues with
  | [v] => strconv_Atoi v
  | _ => Err (errorString "specify exactly one timestamp for until")
  end.

Definition externals : Externals := {|
  Regexp := list piece;
  regexp_Compile := compile;
  Regexp_MatchString := matchAnywhere;
  util_StringMatchRegexSlice := matchRegexSlice;
  filters_MatchLabelFilters := matchLabels;
  util_ComputeUntilTimestamp := untilTimestamp
|}.

Definition ctr (name : string) (nets : result (list string)) : Container.t :=
  {| Container.Name := name; Container.Networks := nets |}.

Definition lookupFailed : error := errorString "lookup failed".

(** A healthy pod with three children. *)
Definition web : Pod.t := {|
  Pod.ID := "abcdef0123";
  Pod.Name := "web";
  Pod.CreatedTime := 100%Z;
  Pod.Labels := [("app", "web")];
  Pod.AllContainersByID := Ok ["abc123"; "def456"; "0a1b2c"];
  Pod.AllContainers :=
    Ok [ctr "web-infra" (Ok ["bridge"]); ctr "nginx" (Ok []); ctr "redis" (Ok [])];
  Pod.Status := Ok [ContainerStateConfigured; ContainerStateRunning; ContainerStateStopped];
  Pod.GetPodStatus := Ok "Exited";
  Pod.InfraContainer := Ok (ctr "web-infra" (Ok ["bridge"]))
|}.

(** A pod none of whose lookups answers. *)
Definition broken : Pod.t := {|
  Pod.ID := "0123456789";
  Pod.Name := "broken";
  Pod.CreatedTime := 0%Z;
  Pod.Labels := [];
  Pod.AllContainersByID := Err lookupFailed;
  Pod.AllContainers := Err lookupFailed;
  Pod.Status := Err lookupFailed;
  Pod.GetPodStatus := Err lookupFailed;
  Pod.InfraContainer := Err lookupFailed
|}.

(** A pod without children. *)
Definition empty : Pod.t := {|
  Pod.ID := "ffff0000";
  Pod.Name := "empty";
  Pod.CreatedTime := 0%Z;
  Pod.Labels := [];
  Pod.AllContainersByID := Ok [];
  Pod.AllContainers := Ok [];
  Pod.Status := Ok [];
  Pod.GetPodStatus := Ok "Created";
  Pod.InfraContainer := Err lookupFailed
|}.

Definition backendDown : error := errorString "network backend unavailable".

(** A registry that knows "bridge", is unreachable for "down", and reports
    every other name as not found. *)
Definition runtime : Runtime.t := {|
  Runtime.NetworkInspect := fun name =>
    if String.eqb name "bridge" then Ok {| Network.Name := "bridge" |}
    else if String.eqb name "down" then Err backendDown
    else Err (wrapError ("unable to find network " ++ name) define_ErrNoSuchNetwork)
|}.

End Sample.

(** ** Options of the events endpoint (lines 194-345)

    The second part of the file: the generated accessors of
    [EventsOptions] and its conversion to query parameters. *)

(** [map[string][]string], the type of the [Filters] field; the code only
    tests it against nil, copies it and hands it to the JSON encoder. *)
Definition FilterMap : Type := list (string * list string).

(** [url.Values]: the values stored under each key. *)
Definition url_Values : Type := list (string * list string).

Fixpoint Values_lookup (v : url_Values) (key : string) : option (list string) :=
  match v with
  | [] => None
  | (k, vs) :: rest => if String.eqb k key then Some vs else Values_lookup rest key
  end.

Fixpoint Values_delete (v : url_Values) (key : string) : url_Values :=
  match v with
  | [] => []
  | (k, vs) :: rest =>
      if String.eqb k key then Values_delete rest key
      else (k, vs) :: Values_delete rest key
  end.

(** [v.Set(key, value)]: the key now holds the one value. *)
Definition Values_Set (v : url_Values) (key value : string) : url_Values :=
  (key, [value]) :: Values_delete v key.

(** [v.Get(key)]: the first value under the key, or the empty string. *)
Definition Values_Get (v : url_Values) (key : string) : string :=
  match Values_lookup v key with
  | Some (first :: _) => first
  | _ => ""
  end.

(** [strconv.FormatBool]. *)
Definition strconv_FormatBool (b : bool) : string := if b then "true" else "false".

Module EventsOptions.

(** The fields, read off the accessors: [Filters] is a map (line 293 tests
    it against nil), the other three are pointers (lines 309-312, 325-328,
    341-344 dereference them).  [None] is nil. *)
Record t : Type := {
  Filters : option FilterMap;
  Since : option string;
  Stream : option bool;
  Until : option string
}.

(** What reflection sees in a field of this struct. *)
Inductive field : Type :=
| MapField (m : option FilterMap)
| StringPtrField (ptr : option string)
| BoolPtrField (ptr : option bool).

(** [reflect.Indirect(r).FieldByName(fieldName)]; [None] when the struct
    has no such field. *)
Definition FieldByName (o : t) (fieldName : string) : option field :=
  if String.eqb fieldName "Filters" then Some (MapField (Filters o))
  else if String.eqb fieldName "Since" then Some (StringPtrField (Since o))
  else if String.eqb fieldName "Stream" then Some (BoolPtrField (Stream o))
  else if String.eqb fieldName "Until" then Some (StringPtrField (Until o))
  else None.

Definition IsNil (f : field) : bool :=
  match f with
  | MapField None | StringPtrField None | BoolPtrField None => true
  | _ => false
  end.

(** [Changed] (lines 212-216).  [None] is the panic of [IsNil] on the zero
    value that [FieldByName] returns for an unknown name. *)
Definition Changed (o : t) (fieldName : string) : option bool :=
  match FieldByName o fieldName with
  | Some value => Some (negb (IsNil value))
  | None => None
  end.

(** The names of the fields in declaration order, [sType.Field(i).Name]. *)
Definition fieldNames : list string := ["Filters"; "Since"; "Stream"; "Until"].

Section ToParams.
(** [json.MarshalToString] of json-iterator, on the copy of the map. *)
Variable json_MarshalToString : FilterMap -> result string.

(** The loop of lines 230-279 over the fields that are left.  The outer
    [option] is [None] when the loop panics.  The arms of the switch for
    integers and slices are left out: no field of this struct has such a
    kind.  A value no arm applies to leaves the parameters as they are. *)
Fixpoint toParamsLoop (o : t) (names : list string) (params : url_Values)
  : option (result url_Values) :=
  match names with
  | [] => Some (Ok params)
  | fieldName :: rest =>
      match Changed o fieldName with
      | None => None
      | Some false => toParamsLoop o rest params
      | Some true =>
          match FieldByName o fieldName with
          | Some (BoolPtrField (Some b)) =>
              toParamsLoop o rest (Values_Set params fieldName (strconv_FormatBool b))
          | Some (StringPtrField (Some str)) =>
              toParamsLoop o rest (Values_Set params fieldName str)
          | Some (MapField (Some m)) =>
              let lowerCaseKeys := m in
              match json_MarshalToString lowerCaseKeys with
              | Err err => Some (Err err)
              | Ok str => toParamsLoop o rest (Values_Set params fieldName str)
              end
          | _ => toParamsLoop o rest params
          end
      end
  end.

(** [ToParams] (lines 219-281); the receiver may be nil. *)
Definition ToParams (o : option t) : option (result url_Values) :=
  let params : url_Values := [] in
  match o with
  | None => Some (Ok params)
  | Some o => toParamsLoop o fieldNames params
  end.

End ToParams.

(** The setters (lines 284-288, 300-304, 316-320, 332-336) store the
    value and return the receiver. *)
Definition WithFilters (value : option FilterMap) (o : t) : t :=
  {| Filters := value; Since := Since o; Stream := Stream o; Until := Until o |}.

Definition WithSince (value : string) (o : t) : t :=
  {| Filters := Filters o; Since := Some value; Stream := Stream o; Until := Until o |}.

Definition WithStream (value : bool) (o : t) : t :=
  {| Filters := Filters o; Since := Since o; Stream := Some value; Until := Until o |}.

Definition WithUntil (value : string) (o : t) : t :=
  {| Filters := Filters o; Since := Since o; Stream := Stream o; Until := Some value |}.

(** The getters (lines 291-297, 307-313, 323-329, 339-345) return the
    zero value for a field that is nil. *)
Definition GetFilters (o : t) : option FilterMap :=
  match Filters o with
  | None => None
  | Some m => Some m
  end.

Definition GetSince (o : t) : string :=
  match Since o with
  | None => ""
  | Some since => since
  end.

Definition GetStream (o : t) : bool :=
  match Stream o with
  | None => false
  | Some stream => stream
  end.

Definition GetUntil (o : t) : string :=
  match Until o with
  | None => ""
  | Some until => until
  end.

(** [new(EventsOptions)]: every field nil. *)
Definition zero : t :=
  {| Filters := None; Since := None; Stream := None; Until := None |}.

End EventsOptions.

(** The child states under the names the ctr-status filter compares them
    by. *)
Definition normalizedStates (ctrStatuses : list define_ContainerStatus) : list string :=
  map ctrStatusState ctrStatuses.

(** The families whose predicate scans the values itself. *)
Definition scanFamilies : list string :=
  ["ctr-ids"; "ctr-number"; "ctr-status"; "id"; "status"; "network"].

(** A pod like [p] under another identifier. *)
Definition withID (id : string) (p : Pod.t) : Pod.t := {|
  Pod.ID := id;
  Pod.Name := Pod.Name p;
  Pod.CreatedTime := Pod.CreatedTime p;
  Pod.Labels := Pod.Labels p;
  Pod.AllContainersByID := Pod.AllContainersByID p;
  Pod.AllContainers := Pod.AllContainers p;
  Pod.Status := Pod.Status p;
  Pod.GetPodStatus := Pod.GetPodStatus p;
  Pod.InfraContainer := Pod.InfraContainer p
|}.

(** The parameters that stand for the options [o], [filters] being the
    encoding of the [Filters] map when it is set: one key per field that
    is set, under the field's name, and no other key. *)
Definition paramsMatch (o : EventsOptions.t) (filters : option string)
    (params : url_Values) : Prop :=
  Values_lookup params "Filters" = option_map (fun str => [str]) filters /\
  Values_lookup params "Since" =
    option_map (fun str => [str]) (EventsOptions.Since o) /\
  Values_lookup params "Stream" =
    option_map (fun b => [strconv_FormatBool b]) (EventsOptions.Stream o) /\
  Values_lookup params "Until" =
    option_map (fun str => [str]) (EventsOptions.Until o) /\
  forall key, ~ In key EventsOptions.fieldNames -> Values_lookup params key = None.

(** The sample pod after its children were cleaned up and one was added. *)
Definition sampleRestarted : Pod.t := {|
  Pod.ID := Pod.ID Sample.web;
  Pod.Name := Pod.Name Sample.web;
  Pod.CreatedTime := Pod.CreatedTime Sample.web;
  Pod.Labels := Pod.Labels Sample.web;
  Pod.AllContainersByID := Pod.AllContainersByID Sample.web;
  Pod.AllContainers := Pod.AllContainers Sample.web;
  Pod.Status :=
    Ok [ContainerStateExited; ContainerStateCreated; ContainerStateRunning;
        ContainerStateRunning];
  Pod.GetPodStatus := Pod.GetPodStatus Sample.web;
  Pod.InfraContainer := Pod.InfraContainer Sample.web
|}.

(** Options with a filter map, a start and the stream flag, no end. *)
Definition sampleOptions : EventsOptions.t :=
  EventsOptions.WithStream false
    (EventsOptions.WithSince "2020-12-17"
       (EventsOptions.WithFilters (Some [("event", ["start"; "die"]); ("pod", ["web"])])
          EventsOptions.zero)).

(** An encoder that always fails, for the examples. *)
Definition failingMarshal (m : FilterMap) : result string :=
  Err (errorString "unsupported value").

(** A JSON encoder for the examples: it lists the keys. *)
Definition sampleMarshal (m : FilterMap) : result string :=
  Ok (String.concat "," (map fst m)).

(** Inverts [Ok f = Ok g] hypotheses and replaces the predicate. *)
Ltac same_predicate :=
  match goal with
  | H : Ok _ = Ok _ |- _ => injection H as <-
  | H : Err _ = Ok _ |- _ => discriminate H
  | H : Ok _ = Err _ |- _ => discriminate H
  end.

(** ** Running the filters on the samples *)

Example atoi_samples :
  strconv_Atoi "3" = Ok 3%Z /\ strconv_Atoi "-12" = Ok (-12)%Z /\
  strconv_Atoi "+7" = Ok 7%Z /\ strconv_Atoi "abc" = Err ErrSyntax /\
  strconv_Atoi "" = Err ErrSyntax /\ strconv_Atoi "-" = Err ErrSyntax /\
  strconv_Atoi "9223372036854775808" = Err ErrRange.
Proof. repeat split; vm_compute; reflexivity. Qed.

Example not_hex_samples :
  define_NotHexRegex_MatchString "abc" = false /\
  define_NotHexRegex_MatchString "" = false /\
  define_NotHexRegex_MatchString "ABCdef019" = false /\
  define_NotHexRegex_MatchString "abc.*" = true /\
  define_NotHexRegex_MatchString "g" = true.
Proof. repeat split; vm_compute; reflexivity. Qed.

Example sample_regexp :
  @regexp_MatchString Sample.externals "abc.*" "abcdef0123" = Ok true /\
  @regexp_MatchString Sample.externals "def.2" "abcdef0123" = Ok false /\
  @regexp_MatchString Sample.externals "f.1" "abcdef0123" = Ok true /\
  (exists err, @regexp_MatchString Sample.externals "(" "abcdef0123" = Err err).
Proof. repeat split; try (vm_compute; reflexivity). eexists; vm_compute; reflexivity. Qed.

(** ** The dispatcher, family by family *)

Section Dispatch.
Context {E : Externals}.
Variables (filterValues : list string) (r : Runtime.t).

Lemma Generate_ctr_ids :
  GeneratePodFilterFunc "ctr-ids" filterValues r = Ok (filterCtrIds filterValues).
Proof. reflexivity. Qed.

Lemma Generate_ctr_names :
  GeneratePodFilterFunc "ctr-names" filterValues r = Ok (filterCtrNames filterValues).
Proof. reflexivity. Qed.

Lemma Generate_ctr_number :
  GeneratePodFilterFunc "ctr-number" filterValues r = Ok (filterCtrNumber filterValues).
Proof. reflexivity. Qed.

Lemma Generate_ctr_status :
  GeneratePodFilterFunc "ctr-status" filterValues r =
  match checkValues ctrStatusValues " is not a valid status" filterValues with
  | Some err => Err err
  | None => Ok (filterCtrStatus filterValues)
  end.
Proof. reflexivity. Qed.

Lemma Generate_id :
  GeneratePodFilterFunc "id" filterValues r = Ok (filterId filterValues).
Proof. reflexivity. Qed.

Lemma Generate_name :
  GeneratePodFilterFunc "name" filterValues r = Ok (filterName filterValues).
Proof. reflexivity. Qed.

Lemma Generate_status :
  GeneratePodFilterFunc "status" filterValues r =
  match checkValues podStatusValues " is not a valid pod status" filterValues with
  | Some err => Err err
  | None => Ok (filterStatus filterValues)
  end.
Proof. reflexivity. Qed.

Lemma Generate_label :
  GeneratePodFilterFunc "label" filterValues r = Ok (filterLabel filterValues).
Proof. reflexivity. Qed.

Lemma Generate_until :
  GeneratePodFilterFunc "until" filterValues r = Ok (filterUntil filterValues).
Proof. reflexivity. Qed.

Lemma Generate_network :
  GeneratePodFilterFunc "network" filterValues r =
  match resolveNetNames r filterValues [] with
  | Err err => Err err
  | Ok inputNetNames => Ok (filterNetwork inputNetNames)
  end.
Proof. reflexivity. Qed.

End Dispatch.

(** ** Evaluation fails closed *)

(** C1.  Whatever the family, a compiled predicate whose body meets a
    failing lookup at a pod (child enumeration, status fetch, infra
    container, network enumeration, until timestamp) answers [false] for
    that pod.  The predicate is a total function to [bool], so no error
    leaves it. *)
Theorem fail_closed_evaluation {E : Externals} :
  forall (filter : string) (filterValues : list string) (r : Runtime.t)
         (f : Pod.t -> bool) (p : Pod.t),
    GeneratePodFilterFunc filter filterValues r = Ok f ->
    accessorFails filterValues p filter ->
    f p = false.
Proof.
  intros filter filterValues r f p Hgen Hfail.
  destruct Hfail as [err H | err H | err H | err H | err H | err H | err H | infra err Hi H].
  - rewrite Generate_ctr_ids in Hgen. same_predicate.
    unfold filterCtrIds. now rewrite H.
  - rewrite Generate_ctr_names in Hgen. same_predicate.
    unfold filterCtrNames. now rewrite H.
  - rewrite Generate_ctr_number in Hgen. same_predicate.
    unfold filterCtrNumber. now rewrite H.
  - rewrite Generate_ctr_status in Hgen.
    destruct (checkValues ctrStatusValues _ filterValues); same_predicate.
    unfold filterCtrStatus. now rewrite H.
  - rewrite Generate_status in Hgen.
    destruct (checkValues podStatusValues _ filterValues); same_predicate.
    unfold filterStatus. now rewrite H.
  - rewrite Generate_until in Hgen. same_predicate.
    unfold filterUntil. now rewrite H.
  - rewrite Generate_network in Hgen.
    destruct (resolveNetNames r filterValues []); same_predicate.
    unfold filterNetwork. now rewrite H.
  - rewrite Generate_network in Hgen.
    destruct (resolveNetNames r filterValues []); same_predicate.
    unfold filterNetwork. now rewrite Hi, H.
Qed.

Lemma fail_closed_evaluation_witness :
  exists f, @GeneratePodFilterFunc Sample.externals "ctr-status" ["running"] Sample.runtime = Ok f /\
            f Sample.broken = false.
Proof.
  eexists. split; [reflexivity |].
  apply (@fail_closed_evaluation Sample.externals "ctr-status" ["running"] Sample.runtime).
  - reflexivity.
  - apply fails_ctr_status with (err := Sample.lookupFailed). reflexivity.
Defined.

(** ** Identifier matching: id and ctr-ids *)

Section Identifiers.
Context {E : Externals}.

Lemma idMatches_hex (id want : string) :
  define_NotHexRegex_MatchString want = false ->
  idMatches id want = strings_HasPrefix id (strings_ToLower want).
Proof. intros H. unfold idMatches. now rewrite H. Qed.

Lemma idMatches_regex (id want : string) :
  define_NotHexRegex_MatchString want = true ->
  idMatches id want = true <-> regexp_MatchString want id = Ok true.
Proof.
  intros H. unfold idMatches. rewrite H.
  destruct (regexp_MatchString want id) as [[|] | err]; split; congruence.
Qed.

Lemma idMatches_invalid_regex (id want : string) (err : error) :
  define_NotHexRegex_MatchString want = true ->
  regexp_Compile want = Err err ->
  idMatches id want = false.
Proof.
  intros H Hc. unfold idMatches, regexp_MatchString. now rewrite H, Hc.
Qed.

Lemma filterId_true_iff (filterValues : list string) (p : Pod.t) :
  filterId filterValues p = true <->
  exists want, In want filterValues /\ idMatches (Pod.ID p) want = true.
Proof. unfold filterId. apply existsb_exists. Qed.

(** The id loop steps over a value that does not compile. *)
Lemma filterId_skips_invalid_regex (want : string) (err : error)
      (rest : list string) (p : Pod.t) :
  define_NotHexRegex_MatchString want = true ->
  regexp_Compile want = Err err ->
  filterId (want :: rest) p = filterId rest p.
Proof.
  intros H Hc. unfold filterId. simpl.
  now rewrite (idMatches_invalid_regex _ _ _ H Hc).
Qed.

(** The ctr-ids loop returns at a value that does not compile. *)
Lemma ctrIdsLoop_invalid_regex (ctrIds : list string) (want : string) (err : error)
      (rest : list string) :
  define_NotHexRegex_MatchString want = true ->
  regexp_Compile want = Err err ->
  ctrIdsLoop ctrIds (want :: rest) = false.
Proof. intros H Hc. simpl. now rewrite H, Hc. Qed.

Lemma ctrIdsLoop_hex_step (ctrIds : list string) (want : string) (rest : list string) :
  define_NotHexRegex_MatchString want = false ->
  ctrIdsLoop ctrIds (want :: rest) =
  existsb (fun id => strings_HasPrefix id (strings_ToLower want)) ctrIds
  || ctrIdsLoop ctrIds rest.
Proof.
  intros H. simpl. rewrite H.
  now destruct (existsb _ ctrIds).
Qed.

Lemma ctrIdsLoop_regex_step (ctrIds : list string) (want : string) (re : Regexp)
      (rest : list string) :
  define_NotHexRegex_MatchString want = true ->
  regexp_Compile want = Ok re ->
  ctrIdsLoop ctrIds (want :: rest) =
  existsb (fun id => Regexp_MatchString re id) ctrIds || ctrIdsLoop ctrIds rest.
Proof.
  intros H Hc. simpl. rewrite H, Hc.
  now destruct (existsb _ ctrIds).
Qed.

Lemma ctrIdsLoop_app_true (ctrIds pre post : list string) :
  Forall compiles pre ->
  ctrIdsLoop ctrIds post = true ->
  ctrIdsLoop ctrIds (pre ++ post) = true.
Proof.
  intros Hpre Hpost. induction Hpre as [| want pre Hw _ IH]; [exact Hpost |].
  rewrite <- app_comm_cons.
  destruct (define_NotHexRegex_MatchString want) eqn:Hx.
  - destruct (Hw Hx) as [re Hre].
    rewrite (ctrIdsLoop_regex_step _ _ re _ Hx Hre), IH. apply orb_true_r.
  - rewrite (ctrIdsLoop_hex_step _ _ _ Hx), IH. apply orb_true_r.
Qed.

End Identifiers.

(** The empty string is a prefix of every identifier and counts as hex. *)
Lemma empty_value_is_hex_prefix (id : string) :
  define_NotHexRegex_MatchString "" = false /\
  strings_HasPrefix id (strings_ToLower "") = true.
Proof. split; [reflexivity |]. now destruct id. Qed.

(** C2.  In the id family a value that does not compile is stepped over,
    and a later value still decides.  In the ctr-ids family the loop
    returns [false] at the first value that does not compile, whatever the
    values after it would match. *)
Theorem invalid_regex_id_skips_ctr_ids_stops {E : Externals} :
  forall (want : string) (err : error) (rest : list string) (r : Runtime.t) (p : Pod.t),
    define_NotHexRegex_MatchString want = true ->
    regexp_Compile want = Err err ->
    (exists f g, GeneratePodFilterFunc "id" (want :: rest) r = Ok f /\
                 GeneratePodFilterFunc "id" rest r = Ok g /\ f p = g p) /\
    (exists f, GeneratePodFilterFunc "ctr-ids" (want :: rest) r = Ok f /\ f p = false).
Proof.
  intros want err rest r p H Hc. split.
  - exists (filterId (want :: rest)), (filterId rest).
    repeat split. now apply filterId_skips_invalid_regex with (err := err).
  - exists (filterCtrIds (want :: rest)). split; [reflexivity |].
    unfold filterCtrIds. destruct (Pod.AllContainersByID p); [| reflexivity].
    now apply ctrIdsLoop_invalid_regex with (err := err).
Qed.

(** The failing input: the value "abc" alone selects the pod through its
    child "abc123"; behind the unclosed group "(" it is never looked at. *)
Lemma invalid_regex_id_skips_ctr_ids_stops_witness :
  (exists g, @GeneratePodFilterFunc Sample.externals "ctr-ids" ["abc"] Sample.runtime = Ok g /\
             g Sample.web = true) /\
  (exists f, @GeneratePodFilterFunc Sample.externals "ctr-ids" ["("; "abc"] Sample.runtime = Ok f /\
             f Sample.web = false).
Proof.
  split.
  - eexists. split; reflexivity.
  - apply (@invalid_regex_id_skips_ctr_ids_stops Sample.externals "("
             (errorString "error parsing regexp: (") ["abc"] Sample.runtime Sample.web);
      reflexivity.
Defined.

(** ** Counting children: ctr-number *)

(** The loop answers [true] exactly when it reaches a value equal to the
    count, and it reaches a value only through values that parse. *)
Lemma ctrNumberLoop_true_iff (len : Z) (filterValues : list string) :
  ctrNumberLoop len filterValues = true <->
  exists pre v post,
    filterValues = (pre ++ v :: post)%list /\ Forall parses pre /\ strconv_Atoi v = Ok len.
Proof.
  induction filterValues as [| v rest IH]; simpl.
  - split; [discriminate |].
    intros (pre & w & post & Heq & _). now destruct pre.
  - destruct (strconv_Atoi v) as [n | err] eqn:Hv.
    + destruct (Z.eqb_spec len n) as [-> | Hne].
      * split; [| reflexivity]. intros _.
        exists [], v, rest. repeat split; [constructor | exact Hv].
      * rewrite IH. split.
        -- intros (pre & w & post & -> & Hpre & Hw).
           exists (v :: pre), w, post. repeat split; [| exact Hw].
           constructor; [now exists n | exact Hpre].
        -- intros (pre & w & post & Heq & Hpre & Hw).
           destruct pre as [| u pre]; simpl in Heq; injection Heq as <- ->.
           ++ congruence.
           ++ exists pre, w, post. repeat split; [now inversion Hpre | exact Hw].
    + split; [discriminate |].
      intros (pre & w & post & Heq & Hpre & Hw).
      destruct pre as [| u pre]; simpl in Heq; injection Heq as <- ->.
      * congruence.
      * inversion Hpre as [| ? ? [n Hn] _]. congruence.
Qed.

Lemma ctrNumberLoop_unparsable_first (len : Z) (v : string) (err : error)
      (rest : list string) :
  strconv_Atoi v = Err err -> ctrNumberLoop len (v :: rest) = false.
Proof. intros H. simpl. now rewrite H. Qed.

(** C3, as the code has it.  The values are tried in request order.  The
    predicate answers [true] exactly when the enumeration succeeds and
    some value parses to the number of children while every value before
    it parses too; a value that does not parse ends the scan with [false],
    so nothing after it is tried. *)
Theorem ctr_number_scan_ends_at_unparsable {E : Externals} :
  forall (filterValues : list string) (r : Runtime.t),
  exists f,
    GeneratePodFilterFunc "ctr-number" filterValues r = Ok f /\
    forall p : Pod.t,
      f p = true <->
      exists ctrIds pre v post,
        Pod.AllContainersByID p = Ok ctrIds /\
        filterValues = (pre ++ v :: post)%list /\
        Forall parses pre /\
        strconv_Atoi v = Ok (Z.of_nat (length ctrIds)).
Proof.
  intros filterValues r. exists (filterCtrNumber filterValues).
  split; [reflexivity |]. intros p. unfold filterCtrNumber.
  destruct (Pod.AllContainersByID p) as [ctrIds | err].
  - rewrite ctrNumberLoop_true_iff. split.
    + intros (pre & v & post & H). now exists ctrIds, pre, v, post.
    + intros (ids & pre & v & post & Hids & H). injection Hids as <-.
      now exists pre, v, post.
  - split; [discriminate |]. now intros (ids & pre & v & post & Hids & _).
Qed.

(** The claim as written fails: with values "abc" and "3" and three
    children, the value "3" parses to the count, yet the predicate is
    [false], because "abc" comes first. *)
Lemma ctr_number_unparsable_value_decides :
  exists f,
    @GeneratePodFilterFunc Sample.externals "ctr-number" ["abc"; "3"] Sample.runtime = Ok f /\
    Pod.AllContainersByID Sample.web = Ok ["abc123"; "def456"; "0a1b2c"] /\
    In "3" ["abc"; "3"] /\
    strconv_Atoi "3" = Ok (Z.of_nat (length ["abc123"; "def456"; "0a1b2c"])) /\
    f Sample.web = false.
Proof.
  exists (filterCtrNumber ["abc"; "3"]).
  repeat split; try reflexivity. simpl. auto.
Qed.

(** The same request in the other order selects the pod. *)
Example ctr_number_order_matters :
  filterCtrNumber ["3"; "abc"] Sample.web = true /\
  filterCtrNumber ["abc"; "3"] Sample.web = false /\
  filterCtrNumber ["4"; "-1"; "3"] Sample.web = true /\
  filterCtrNumber ["abc"] Sample.web = false /\
  filterCtrNumber ["4"] Sample.web = false.
Proof. repeat split; vm_compute; reflexivity. Qed.

(** ** Child names: ctr-names *)

(** C4.  When the enumeration of children succeeds with at least one
    child, the ctr-names predicate is the name match on the first child
    alone, so two pods whose first children share a name get the same
    answer whatever their other children are; with no child the answer is
    [false]. *)
Theorem ctr_names_decides_on_first_child {E : Externals} :
  forall (filterValues : list string) (r : Runtime.t) (f : Pod.t -> bool),
    GeneratePodFilterFunc "ctr-names" filterValues r = Ok f ->
    (forall p first others,
        Pod.AllContainers p = Ok (first :: others) ->
        f p = util_StringMatchRegexSlice (Container.Name first) filterValues) /\
    (forall p q first others first' others',
        Pod.AllContainers p = Ok (first :: others) ->
        Pod.AllContainers q = Ok (first' :: others') ->
        Container.Name first = Container.Name first' ->
        f p = f q) /\
    (forall p, Pod.AllContainers p = Ok [] -> f p = false).
Proof.
  intros filterValues r f Hgen.
  rewrite Generate_ctr_names in Hgen. same_predicate.
  unfold filterCtrNames. repeat split.
  - intros p first others H. now rewrite H.
  - intros p q first others first' others' Hp Hq Hname.
    now rewrite Hp, Hq, Hname.
  - intros p H. now rewrite H.
Qed.

(** On the sample pod the first child is "web-infra": a request for
    "nginx", the second child, does not select the pod. *)
Lemma ctr_names_decides_on_first_child_witness :
  exists f,
    @GeneratePodFilterFunc Sample.externals "ctr-names" ["nginx"] Sample.runtime = Ok f /\
    f Sample.web = @util_StringMatchRegexSlice Sample.externals "web-infra" ["nginx"] /\
    f Sample.web = false /\
    f Sample.empty = false.
Proof.
  eexists. split; [reflexivity |].
  destruct (@ctr_names_decides_on_first_child Sample.externals ["nginx"] Sample.runtime
              _ eq_refl) as (Hfirst & _ & Hnone).
  split; [| split].
  - apply (Hfirst Sample.web (Sample.ctr "web-infra" (Ok ["bridge"]))
             [Sample.ctr "nginx" (Ok []); Sample.ctr "redis" (Ok [])]).
    reflexivity.
  - reflexivity.
  - apply Hnone. reflexivity.
Defined.

(** ** Unknown families *)

Lemma StringInSlice_true_iff (s : string) (sl : list string) :
  cutil_StringInSlice s sl = true <-> In s sl.
Proof.
  unfold cutil_StringInSlice. rewrite existsb_exists. split.
  - intros (i & Hin & Heq). apply String.eqb_eq in Heq. now subst.
  - intros Hin. exists s. split; [exact Hin | apply String.eqb_refl].
Qed.

Lemma StringInSlice_false_iff (s : string) (sl : list string) :
  cutil_StringInSlice s sl = false <-> ~ In s sl.
Proof.
  rewrite <- StringInSlice_true_iff. now destruct (cutil_StringInSlice s sl).
Qed.

(** The first value outside the vocabulary is the one the error names. *)
Lemma checkValues_Some (valid : list string) (what : string)
      (filterValues : list string) (err : error) :
  checkValues valid what filterValues = Some err ->
  exists pre v post,
    filterValues = (pre ++ v :: post)%list /\
    (forall u, In u pre -> In u valid) /\
    ~ In v valid /\
    err = fmt_Errorf (v ++ what).
Proof.
  induction filterValues as [| v rest IH]; simpl; [discriminate |].
  destruct (cutil_StringInSlice v valid) eqn:Hv; simpl.
  - intros H. destruct (IH H) as (pre & w & post & -> & Hpre & Hw & ->).
    exists (v :: pre), w, post. repeat split; try assumption.
    intros u [<- | Hu]; [now apply StringInSlice_true_iff | now apply Hpre].
  - intros H. injection H as <-.
    exists [], v, rest. repeat split.
    + intros u [].
    + now apply StringInSlice_false_iff.
Qed.

Lemma checkValues_None_iff (valid : list string) (what : string)
      (filterValues : list string) :
  checkValues valid what filterValues = None <->
  forall v, In v filterValues -> In v valid.
Proof.
  induction filterValues as [| v rest IH]; simpl.
  - split; [intros _ u [] | reflexivity].
  - destruct (cutil_StringInSlice v valid) eqn:Hv; simpl.
    + rewrite IH. apply StringInSlice_true_iff in Hv. split.
      * intros H u [<- | Hu]; auto.
      * intros H u Hu. apply H. now right.
    + apply StringInSlice_false_iff in Hv. split; [discriminate |].
      intros H. exfalso. apply Hv, H. now left.
Qed.

(** The resolution loop fails only with the error of a lookup. *)
Lemma resolveNetNames_Err (r : Runtime.t) (filterValues acc : list string) (err : error) :
  resolveNetNames r filterValues acc = Err err ->
  exists val, In val filterValues /\ hardFailure r val err.
Proof.
  revert acc. induction filterValues as [| val rest IH]; simpl; intros acc; [discriminate |].
  destruct (Runtime.NetworkInspect r val) as [net | e] eqn:Hval.
  - intros H. destruct (IH _ H) as (w & Hin & Hw). exists w. auto.
  - destruct (errors_Is e define_ErrNoSuchNetwork) eqn:His.
    + intros H. destruct (IH _ H) as (w & Hin & Hw). exists w. auto.
    + intros H. injection H as <-. exists val. split; [now left | now split].
Qed.

Lemma Generate_unknown {E : Externals} (filter : string) (filterValues : list string)
      (r : Runtime.t) :
  ~ In filter families ->
  GeneratePodFilterFunc filter filterValues r =
  Err (fmt_Errorf (filter ++ " is an invalid filter")).
Proof.
  intros Hnot. unfold GeneratePodFilterFunc.
  repeat match goal with
         | |- context [String.eqb filter ?s] =>
             destruct (String.eqb_spec filter s) as [-> | _];
             [exfalso; apply Hnot; simpl; tauto |]
         end.
  reflexivity.
Qed.

(** C5, as the code has it.  The switch has ten cases.  A family name
    outside them yields no predicate and the error "<family> is an invalid
    filter".  A name among them never reaches that line: it yields a
    predicate, or the error of its own validation (a status value), or the
    error of a network lookup. *)
Theorem unknown_family_is_an_invalid_filter {E : Externals} :
  forall (filter : string) (filterValues : list string) (r : Runtime.t),
    length families = 10%nat /\
    (~ In filter families ->
     GeneratePodFilterFunc filter filterValues r =
     Err (fmt_Errorf (filter ++ " is an invalid filter")) /\
     Error (fmt_Errorf (filter ++ " is an invalid filter")) = filter ++ " is an invalid filter") /\
    (In filter families ->
     (exists f, GeneratePodFilterFunc filter filterValues r = Ok f) \/
     (exists v, In v filterValues /\
                GeneratePodFilterFunc filter filterValues r =
                Err (fmt_Errorf (v ++ " is not a valid status"))) \/
     (exists v, In v filterValues /\
                GeneratePodFilterFunc filter filterValues r =
                Err (fmt_Errorf (v ++ " is not a valid pod status"))) \/
     (exists v err, In v filterValues /\ hardFailure r v err /\
                    GeneratePodFilterFunc filter filterValues r = Err err)).
Proof.
  intros filter filterValues r. split; [reflexivity |]. split.
  - intros Hnot. split; [now apply Generate_unknown | reflexivity].
  - intros Hin. simpl in Hin.
    repeat (destruct Hin as [<- | Hin]); try contradiction;
      try (left; eexists; reflexivity).
    + rewrite Generate_ctr_status.
      destruct (checkValues ctrStatusValues _ filterValues) as [err |] eqn:Hc.
      * right; left. apply checkValues_Some in Hc.
        destruct Hc as (pre & v & post & -> & _ & _ & ->).
        exists v. split; [apply in_elt | reflexivity].
      * left. eexists; reflexivity.
    + rewrite Generate_status.
      destruct (checkValues podStatusValues _ filterValues) as [err |] eqn:Hc.
      * right; right; left. apply checkValues_Some in Hc.
        destruct Hc as (pre & v & post & -> & _ & _ & ->).
        exists v. split; [apply in_elt | reflexivity].
      * left. eexists; reflexivity.
    + rewrite Generate_network.
      destruct (resolveNetNames r filterValues []) as [names | err] eqn:Hr.
      * left. eexists; reflexivity.
      * right; right; right. apply resolveNetNames_Err in Hr.
        destruct Hr as (v & Hv & Hhard). exists v, err. auto.
Qed.

Lemma unknown_family_is_an_invalid_filter_witness :
  @GeneratePodFilterFunc Sample.externals "bogus" ["x"] Sample.runtime =
  Err (fmt_Errorf "bogus is an invalid filter") /\
  exists f, @GeneratePodFilterFunc Sample.externals "label" ["x"] Sample.runtime = Ok f.
Proof.
  split.
  - apply (proj1 (proj2 (@unknown_family_is_an_invalid_filter Sample.externals
                           "bogus" ["x"] Sample.runtime))).
    simpl. intros H. repeat (destruct H as [H | H]; [discriminate H |]). exact H.
  - destruct (proj2 (proj2 (@unknown_family_is_an_invalid_filter Sample.externals
                              "label" ["x"] Sample.runtime)))
      as [H | [(v & _ & H) | [(v & _ & H) | (v & err & _ & _ & H)]]];
      [simpl; tauto | exact H | discriminate H | discriminate H | discriminate H].
Defined.

(** The claim as written fails: the message of the error for the unknown
    family "bogus" is "bogus is an invalid filter", not "invalid filter:
    bogus". *)
Lemma unknown_family_message_differs :
  exists err,
    @GeneratePodFilterFunc Sample.externals "bogus" [] Sample.runtime = Err err /\
    Error err = "bogus is an invalid filter" /\
    Error err <> "invalid filter: bogus".
Proof.
  eexists. repeat split. discriminate.
Qed.

(** ** Status vocabularies: ctr-status and status *)

(** Validation fails exactly on a value outside the vocabulary, and the
    error names such a value. *)
Lemma checkValues_fails_iff (valid : list string) (what : string)
      (filterValues : list string) :
  (exists err, checkValues valid what filterValues = Some err) <->
  (exists v, In v filterValues /\ ~ In v valid).
Proof.
  split.
  - intros (err & H). apply checkValues_Some in H.
    destruct H as (pre & v & post & -> & _ & Hv & _).
    exists v. split; [apply in_elt | exact Hv].
  - intros (v & Hin & Hv).
    destruct (checkValues valid what filterValues) as [err |] eqn:Hc.
    + now exists err.
    + exfalso. apply Hv. now apply (proj1 (checkValues_None_iff valid what filterValues)).
Qed.

Lemma checkValues_message (valid : list string) (what : string)
      (filterValues : list string) (err : error) :
  checkValues valid what filterValues = Some err ->
  exists v, In v filterValues /\ ~ In v valid /\ Error err = v ++ what.
Proof.
  intros H. apply checkValues_Some in H.
  destruct H as (pre & v & post & -> & _ & Hv & ->).
  exists v. repeat split; [apply in_elt | exact Hv].
Qed.

(** A family that validates its values before it builds its predicate. *)
Lemma validated_family {A : Type} (valid : list string) (what : string)
      (filterValues : list string) (predicate : A) (compiled : result A) :
  compiled = match checkValues valid what filterValues with
             | Some err => Err err
             | None => Ok predicate
             end ->
  ((exists err, compiled = Err err) <->
   (exists v, In v filterValues /\ ~ In v valid)) /\
  (forall err, compiled = Err err ->
               exists v, In v filterValues /\ ~ In v valid /\ Error err = v ++ what) /\
  ((forall v, In v filterValues -> In v valid) <-> (exists f, compiled = Ok f)).
Proof.
  intros ->.
  rewrite <- checkValues_fails_iff with (what := what).
  rewrite <- checkValues_None_iff with (what := what).
  pose proof (checkValues_message valid what filterValues) as Hmsg.
  destruct (checkValues valid what filterValues) as [e |].
  - split; [| split].
    + split; intros _; now exists e.
    + intros err H. injection H as <-. now apply Hmsg.
    + split; [discriminate | intros [f H]; discriminate H].
  - split; [| split].
    + split; intros [err H]; discriminate H.
    + intros err H. discriminate H.
    + split; [intros _; now exists predicate | reflexivity].
Qed.

(** C6.  Compiling a ctr-status request fails exactly when one of its
    values is outside created, running, paused, stopped, exited, unknown,
    and the error then reads "<value> is not a valid status" for such a
    value; compiling a status request fails exactly when one of its values
    is outside stopped, running, paused, exited, dead, created, degraded,
    with "<value> is not a valid pod status".  With valid values only,
    both compile to a predicate. *)
Theorem status_vocabularies_are_checked_at_compile_time {E : Externals} :
  forall (filterValues : list string) (r : Runtime.t),
    let ctrVocabulary := ["created"; "running"; "paused"; "stopped"; "exited"; "unknown"] in
    let podVocabulary :=
      ["stopped"; "running"; "paused"; "exited"; "dead"; "created"; "degraded"] in
    ((exists err, GeneratePodFilterFunc "ctr-status" filterValues r = Err err) <->
     (exists v, In v filterValues /\ ~ In v ctrVocabulary)) /\
    (forall err, GeneratePodFilterFunc "ctr-status" filterValues r = Err err ->
                 exists v, In v filterValues /\ ~ In v ctrVocabulary /\
                           Error err = v ++ " is not a valid status") /\
    ((forall v, In v filterValues -> In v ctrVocabulary) <->
     (exists f, GeneratePodFilterFunc "ctr-status" filterValues r = Ok f)) /\
    ((exists err, GeneratePodFilterFunc "status" filterValues r = Err err) <->
     (exists v, In v filterValues /\ ~ In v podVocabulary)) /\
    (forall err, GeneratePodFilterFunc "status" filterValues r = Err err ->
                 exists v, In v filterValues /\ ~ In v podVocabulary /\
                           Error err = v ++ " is not a valid pod status") /\
    ((forall v, In v filterValues -> In v podVocabulary) <->
     (exists f, GeneratePodFilterFunc "status" filterValues r = Ok f)).
Proof.
  intros filterValues r ctrVocabulary podVocabulary.
  destruct (validated_family ctrStatusValues " is not a valid status" filterValues
              (filterCtrStatus filterValues) _ (Generate_ctr_status filterValues r))
    as (Hc1 & Hc2 & Hc3).
  destruct (validated_family podStatusValues " is not a valid pod status" filterValues
              (filterStatus filterValues) _ (Generate_status filterValues r))
    as (Hp1 & Hp2 & Hp3).
  exact (conj Hc1 (conj Hc2 (conj Hc3 (conj Hp1 (conj Hp2 Hp3))))).
Qed.

Example status_vocabulary_samples :
  @GeneratePodFilterFunc Sample.externals "ctr-status" ["running"; "dead"; "bogus"] Sample.runtime
  = Err (fmt_Errorf "dead is not a valid status") /\
  @GeneratePodFilterFunc Sample.externals "status" ["dead"; "unknown"] Sample.runtime
  = Err (fmt_Errorf "unknown is not a valid pod status") /\
  @GeneratePodFilterFunc Sample.externals "status" ["dead"; "degraded"] Sample.runtime
  = Ok (filterStatus ["dead"; "degraded"]) /\
  @GeneratePodFilterFunc Sample.externals "ctr-status" [] Sample.runtime
  = Ok (filterCtrStatus []).
Proof. repeat split. Qed.

(** ** Status normalization *)

Lemma filterCtrStatus_true_iff (filterValues : list string) (p : Pod.t) :
  filterCtrStatus filterValues p = true <->
  exists ctrStatuses ctrStatus filterValue,
    Pod.Status p = Ok ctrStatuses /\ In ctrStatus ctrStatuses /\
    In filterValue filterValues /\
    ctrStatusState ctrStatus = ctrStatusValue filterValue.
Proof.
  unfold filterCtrStatus. destruct (Pod.Status p) as [ctrStatuses | err].
  - rewrite existsb_exists. split.
    + intros (st & Hst & H). apply existsb_exists in H.
      destruct H as (v & Hv & H). apply String.eqb_eq in H.
      now exists ctrStatuses, st, v.
    + intros (sts & st & v & Hsts & Hst & Hv & H). injection Hsts as <-.
      exists st. split; [exact Hst |]. apply existsb_exists.
      exists v. split; [exact Hv |]. now apply String.eqb_eq.
  - split; [discriminate |]. now intros (sts & st & v & Hsts & _).
Qed.

Lemma filterStatus_true_iff (filterValues : list string) (p : Pod.t) :
  filterStatus filterValues p = true <->
  exists status, Pod.GetPodStatus p = Ok status /\
                 In (strings_ToLower status) filterValues.
Proof.
  unfold filterStatus. destruct (Pod.GetPodStatus p) as [status | err].
  - rewrite existsb_exists. split.
    + intros (v & Hv & H). apply String.eqb_eq in H. subst v. now exists status.
    + intros (s & Hs & H). injection Hs as <-.
      exists (strings_ToLower status). split; [exact H | apply String.eqb_refl].
  - split; [discriminate |]. now intros (s & Hs & _).
Qed.

(** C7.  Under ctr-status a child state is compared under its normalized
    name (configured as created, stopped as exited, the others under their
    own name) with the query value, in which stopped reads exited; so a
    configured child answers to "created" and a stopped child to
    "stopped".  Under status the pod's own status is lower-cased and
    compared with the query values as they are; so a pod whose status
    reads exited does not answer to "stopped". *)
Theorem status_families_normalize_differently {E : Externals} :
  forall (r : Runtime.t) (p : Pod.t),
    (ctrStatusState ContainerStateConfigured = "created" /\
     ctrStatusState ContainerStateStopped = "exited" /\
     (forall st, st <> ContainerStateConfigured -> st <> ContainerStateStopped ->
                 ctrStatusState st = ContainerStatus_String st) /\
     ctrStatusValue "stopped" = "exited" /\
     (forall v, v <> "stopped" -> ctrStatusValue v = v)) /\
    (forall filterValues f,
        GeneratePodFilterFunc "ctr-status" filterValues r = Ok f ->
        (f p = true <->
         exists ctrStatuses ctrStatus filterValue,
           Pod.Status p = Ok ctrStatuses /\ In ctrStatus ctrStatuses /\
           In filterValue filterValues /\
           ctrStatusState ctrStatus = ctrStatusValue filterValue)) /\
    (forall filterValues f,
        GeneratePodFilterFunc "status" filterValues r = Ok f ->
        (f p = true <->
         exists status, Pod.GetPodStatus p = Ok status /\
                        In (strings_ToLower status) filterValues)) /\
    (forall ctrStatuses,
        Pod.Status p = Ok ctrStatuses -> In ContainerStateConfigured ctrStatuses ->
        exists f, GeneratePodFilterFunc "ctr-status" ["created"] r = Ok f /\ f p = true) /\
    (forall ctrStatuses,
        Pod.Status p = Ok ctrStatuses -> In ContainerStateStopped ctrStatuses ->
        exists f, GeneratePodFilterFunc "ctr-status" ["stopped"] r = Ok f /\ f p = true) /\
    (forall status,
        Pod.GetPodStatus p = Ok status -> strings_ToLower status = "exited" ->
        exists f, GeneratePodFilterFunc "status" ["stopped"] r = Ok f /\ f p = false).
Proof.
  intros r p. split; [| split; [| split; [| split; [| split]]]].
  - repeat split.
    + intros st H1 H2. now destruct st.
    + intros v Hv. unfold ctrStatusValue.
      now destruct (String.eqb_spec v "stopped").
  - intros filterValues f Hgen. rewrite Generate_ctr_status in Hgen.
    destruct (checkValues ctrStatusValues _ filterValues); same_predicate.
    apply filterCtrStatus_true_iff.
  - intros filterValues f Hgen. rewrite Generate_status in Hgen.
    destruct (checkValues podStatusValues _ filterValues); same_predicate.
    apply filterStatus_true_iff.
  - intros sts Hsts Hin. exists (filterCtrStatus ["created"]). split; [reflexivity |].
    apply filterCtrStatus_true_iff.
    exists sts, ContainerStateConfigured, "created". repeat split; simpl; auto.
  - intros sts Hsts Hin. exists (filterCtrStatus ["stopped"]). split; [reflexivity |].
    apply filterCtrStatus_true_iff.
    exists sts, ContainerStateStopped, "stopped". repeat split; simpl; auto.
  - intros status Hs Hlow. exists (filterStatus ["stopped"]). split; [reflexivity |].
    unfold filterStatus. rewrite Hs, Hlow. reflexivity.
Qed.

(** The sample pod has a configured and a stopped child, and its own
    status reads "Exited". *)
Lemma status_families_normalize_differently_witness :
  (exists f, @GeneratePodFilterFunc Sample.externals "ctr-status" ["created"] Sample.runtime = Ok f /\
             f Sample.web = true) /\
  (exists f, @GeneratePodFilterFunc Sample.externals "ctr-status" ["stopped"] Sample.runtime = Ok f /\
             f Sample.web = true) /\
  (exists f, @GeneratePodFilterFunc Sample.externals "status" ["stopped"] Sample.runtime = Ok f /\
             f Sample.web = false).
Proof.
  destruct (@status_families_normalize_differently Sample.externals Sample.runtime Sample.web)
    as (_ & _ & _ & Hcreated & Hstopped & Hpod).
  split; [| split].
  - apply (Hcreated [ContainerStateConfigured; ContainerStateRunning; ContainerStateStopped]).
    + reflexivity.
    + simpl. auto.
  - apply (Hstopped [ContainerStateConfigured; ContainerStateRunning; ContainerStateStopped]).
    + reflexivity.
    + simpl. auto.
  - apply (Hpod "Exited"); reflexivity.
Defined.

Example status_samples :
  filterStatus ["exited"] Sample.web = true /\
  filterStatus ["stopped"] Sample.web = false /\
  filterCtrStatus ["exited"] Sample.web = true /\
  filterCtrStatus ["paused"] Sample.web = false /\
  filterCtrStatus ["running"] Sample.broken = false.
Proof. repeat split. Qed.

(** ** The id family *)

Lemma HasPrefix_true_iff (s pre : string) :
  strings_HasPrefix s pre = true <-> exists rest, s = pre ++ rest.
Proof.
  unfold strings_HasPrefix. revert s.
  induction pre as [| a pre IH]; intros s.
  - split; [intros _; now exists s | intros _; now destruct s].
  - destruct s as [| b s]; simpl.
    + split; [discriminate | intros [rest H]; discriminate H].
    + destruct (Ascii.ascii_dec a b) as [<- | Hne].
      * rewrite IH. split; intros [rest H]; exists rest.
        -- now rewrite H.
        -- now injection H.
      * split; [discriminate |]. intros [rest H]. injection H as H _. congruence.
Qed.

Lemma NotHexRegex_false_iff (want : string) :
  define_NotHexRegex_MatchString want = false <-> onlyHexDigits want.
Proof.
  unfold define_NotHexRegex_MatchString, onlyHexDigits.
  induction (list_ascii_of_string want) as [| c cs IH]; simpl.
  - split; [intros _ c [] | reflexivity].
  - rewrite orb_false_iff, negb_false_iff, IH. split.
    + intros [Hc Hcs] d [<- | Hd]; auto.
    + intros H. split; [apply H; now left | intros d Hd; apply H; now right].
Qed.

Lemma NotHexRegex_true_iff (want : string) :
  define_NotHexRegex_MatchString want = true <-> ~ onlyHexDigits want.
Proof.
  rewrite <- NotHexRegex_false_iff.
  now destruct (define_NotHexRegex_MatchString want).
Qed.

(** C8.  An id request selects a pod exactly when one of its values
    matches the pod's identifier: a value of hex digits only (of any
    length) matches when the identifier starts with the lower-cased value;
    any other value never goes down the prefix path and matches when
    [regexp.MatchString], a search anywhere in the identifier, reports a
    match. *)
Theorem id_is_prefix_for_hex_and_regex_otherwise {E : Externals} :
  forall (filterValues : list string) (r : Runtime.t),
  exists f,
    GeneratePodFilterFunc "id" filterValues r = Ok f /\
    forall p : Pod.t,
      f p = true <->
      exists want,
        In want filterValues /\
        ((onlyHexDigits want /\ exists rest, Pod.ID p = strings_ToLower want ++ rest) \/
         (~ onlyHexDigits want /\ regexp_MatchString want (Pod.ID p) = Ok true)).
Proof.
  intros filterValues r. exists (filterId filterValues). split; [reflexivity |].
  intros p. rewrite filterId_true_iff. split.
  - intros (want & Hin & H). exists want. split; [exact Hin |].
    destruct (define_NotHexRegex_MatchString want) eqn:Hx.
    + right. split; [now apply NotHexRegex_true_iff | now apply idMatches_regex].
    + left. split; [now apply NotHexRegex_false_iff |].
      apply HasPrefix_true_iff. now rewrite <- idMatches_hex.
  - intros (want & Hin & [[Hhex Hpre] | [Hnot Hre]]); exists want; split; try exact Hin.
    + apply NotHexRegex_false_iff in Hhex.
      rewrite idMatches_hex by exact Hhex. now apply HasPrefix_true_iff.
    + apply NotHexRegex_true_iff in Hnot. now apply idMatches_regex.
Qed.

Example id_samples :
  @filterId Sample.externals ["abc"] Sample.web = true /\
  @filterId Sample.externals ["ABC"] Sample.web = true /\
  @filterId Sample.externals [""] Sample.web = true /\
  @filterId Sample.externals ["bcd"] Sample.web = false /\
  @filterId Sample.externals ["b.d"] Sample.web = true /\
  @filterId Sample.externals ["abc.*"] Sample.web = true /\
  @filterId Sample.externals ["xyz.*"] Sample.web = false /\
  @filterId Sample.externals ["("; "abc"] Sample.web = true.
Proof. repeat split. Qed.

(** ** The network family *)

Lemma resolveNetNames_soft (r : Runtime.t) (filterValues acc : list string) :
  (forall val err, In val filterValues -> ~ hardFailure r val err) ->
  resolveNetNames r filterValues acc = Ok (acc ++ resolvedNames r filterValues)%list.
Proof.
  revert acc. induction filterValues as [| val rest IH]; intros acc Hsoft; simpl.
  - now rewrite app_nil_r.
  - assert (Hrest : forall v e, In v rest -> ~ hardFailure r v e)
      by (intros v e Hv; apply Hsoft; now right).
    destruct (Runtime.NetworkInspect r val) as [net | err] eqn:Hval.
    + rewrite IH by exact Hrest. now rewrite <- app_assoc.
    + destruct (errors_Is err define_ErrNoSuchNetwork) eqn:His.
      * now apply IH.
      * exfalso. apply (Hsoft val err); [now left | now split].
Qed.

Lemma resolveNetNames_hard (r : Runtime.t) (pre : list string) (val : string)
      (post acc : list string) (err : error) :
  (forall u e, In u pre -> ~ hardFailure r u e) ->
  hardFailure r val err ->
  resolveNetNames r (pre ++ val :: post) acc = Err err.
Proof.
  revert acc. induction pre as [| u pre IH]; intros acc Hsoft [Hval His]; simpl.
  - now rewrite Hval, His.
  - assert (Hpre : forall v e, In v pre -> ~ hardFailure r v e)
      by (intros v e Hv; apply Hsoft; now right).
    destruct (Runtime.NetworkInspect r u) as [net | e] eqn:Hu.
    + apply IH; [exact Hpre | now split].
    + destruct (errors_Is e define_ErrNoSuchNetwork) eqn:Hise.
      * apply IH; [exact Hpre | now split].
      * exfalso. apply (Hsoft u e); [now left | now split].
Qed.

Lemma filterNetwork_nil (p : Pod.t) : filterNetwork [] p = false.
Proof.
  unfold filterNetwork.
  destruct (Pod.InfraContainer p) as [infra |]; [| reflexivity].
  destruct (Container.Networks infra) as [networks |]; [| reflexivity].
  destruct (length networks =? 0)%nat; [reflexivity |].
  induction networks as [| net networks IH]; [reflexivity | exact IH].
Qed.

Lemma filterNetwork_true_iff (inputNetNames : list string) (p : Pod.t) :
  filterNetwork inputNetNames p = true <->
  exists infra networks net,
    Pod.InfraContainer p = Ok infra /\ Container.Networks infra = Ok networks /\
    In net networks /\ In net inputNetNames.
Proof.
  unfold filterNetwork.
  destruct (Pod.InfraContainer p) as [infra | e].
  - destruct (Container.Networks infra) as [networks | e] eqn:Hn.
    + destruct networks as [| n0 ns]; simpl length; cbv iota beta.
      * split; [discriminate |].
        intros (i & ns & net & Hi & Hns & Hin & _). injection Hi as <-.
        rewrite Hn in Hns. injection Hns as <-. destruct Hin.
      * change (S (length ns) =? 0)%nat with false. cbv iota.
        rewrite existsb_exists. split.
        -- intros (net & Hin & H). apply StringInSlice_true_iff in H.
           now exists infra, (n0 :: ns), net.
        -- intros (i & ns' & net & Hi & Hns & Hin & H). injection Hi as <-.
           rewrite Hn in Hns. injection Hns as <-.
           exists net. split; [exact Hin | now apply StringInSlice_true_iff].
    + split; [discriminate |].
      intros (i & ns & net & Hi & Hns & _). injection Hi as <-. congruence.
  - split; [discriminate |]. now intros (i & ns & net & Hi & _).
Qed.

(** C9.  Compiling a network request looks every value up in the registry.
    A value the registry reports as not found is passed over; the first
    lookup that fails in any other way ends compilation with that error;
    otherwise the predicate captures the canonical names of the values
    that resolved.  With no captured name the predicate is [false] for
    every pod. *)
Theorem network_names_are_resolved_at_compile_time {E : Externals} :
  forall (filterValues : list string) (r : Runtime.t),
    ((forall val err, In val filterValues -> ~ hardFailure r val err) ->
     GeneratePodFilterFunc "network" filterValues r =
     Ok (filterNetwork (resolvedNames r filterValues))) /\
    (forall pre val post err,
        filterValues = (pre ++ val :: post)%list ->
        (forall u e, In u pre -> ~ hardFailure r u e) ->
        hardFailure r val err ->
        GeneratePodFilterFunc "network" filterValues r = Err err) /\
    (forall val err,
        Runtime.NetworkInspect r val = Err err ->
        resolvedNames r (val :: filterValues) = resolvedNames r filterValues) /\
    (forall val net,
        Runtime.NetworkInspect r val = Ok net ->
        resolvedNames r (val :: filterValues) =
        Network.Name net :: resolvedNames r filterValues) /\
    (forall p : Pod.t, filterNetwork [] p = false).
Proof.
  intros filterValues r. split; [| split; [| split; [| split]]].
  - intros Hsoft. rewrite Generate_network.
    now rewrite (resolveNetNames_soft r filterValues [] Hsoft).
  - intros pre val post err -> Hsoft Hhard. rewrite Generate_network.
    now rewrite (resolveNetNames_hard r pre val post [] err Hsoft Hhard).
  - intros val err H. unfold resolvedNames. simpl. now rewrite H.
  - intros val net H. unfold resolvedNames. simpl. now rewrite H.
  - intros p. apply filterNetwork_nil.
Qed.

(** The registry knows "bridge" and not "ghost"; it is unreachable for
    "down". *)
Lemma network_names_are_resolved_at_compile_time_witness :
  @GeneratePodFilterFunc Sample.externals "network" ["bridge"; "ghost"] Sample.runtime =
  Ok (filterNetwork ["bridge"]) /\
  @GeneratePodFilterFunc Sample.externals "network" ["ghost"; "down"; "bridge"] Sample.runtime =
  Err Sample.backendDown /\
  filterNetwork [] Sample.web = false.
Proof.
  split; [| split].
  - apply (proj1 (@network_names_are_resolved_at_compile_time Sample.externals
                    ["bridge"; "ghost"] Sample.runtime)).
    intros val err [<- | [<- | []]] [Hval His]; vm_compute in Hval;
      [discriminate Hval | injection Hval as <-; vm_compute in His; discriminate His].
  - apply (proj1 (proj2 (@network_names_are_resolved_at_compile_time Sample.externals
                           ["ghost"; "down"; "bridge"] Sample.runtime))
             ["ghost"] "down" ["bridge"] Sample.backendDown).
    + reflexivity.
    + intros u e [<- | []] [Hval His]. vm_compute in Hval. injection Hval as <-.
      vm_compute in His. discriminate His.
    + split; reflexivity.
  - apply (proj2 (proj2 (proj2 (proj2
             (@network_names_are_resolved_at_compile_time Sample.externals
                ["ghost"] Sample.runtime))))).
Defined.

Example network_samples :
  filterNetwork ["bridge"] Sample.web = true /\
  filterNetwork ["bridge"] Sample.empty = false /\
  filterNetwork ["bridge"] Sample.broken = false /\
  filterNetwork ["other"] Sample.web = false.
Proof. repeat split. Qed.

(** ** The empty value *)

Lemma idMatches_empty {E : Externals} (id : string) : idMatches id "" = true.
Proof.
  rewrite idMatches_hex by reflexivity. apply empty_value_is_hex_prefix.
Qed.

Lemma ctrIdsLoop_empty_value {E : Externals} (ctrIds rest : list string) :
  ctrIds <> [] -> ctrIdsLoop ctrIds ("" :: rest) = true.
Proof.
  intros Hne. rewrite ctrIdsLoop_hex_step by reflexivity.
  destruct ctrIds as [| id ids]; [contradiction |].
  now destruct id.
Qed.

(** C10.  The empty value counts as hex and is a prefix of every
    identifier.  An id request that contains it selects every pod.  A
    ctr-ids request that contains it selects every pod with at least one
    enumerated child, provided no value before it is a regular expression
    that fails to compile; behind such a value the loop has already
    returned [false]. *)
Theorem empty_value_matches_unless_ctr_ids_stopped {E : Externals} :
  forall (r : Runtime.t) (p : Pod.t),
    (forall filterValues,
        In "" filterValues ->
        exists f, GeneratePodFilterFunc "id" filterValues r = Ok f /\ f p = true) /\
    (forall pre post ctrIds,
        Pod.AllContainersByID p = Ok ctrIds -> ctrIds <> [] ->
        Forall compiles pre ->
        exists f, GeneratePodFilterFunc "ctr-ids" (pre ++ "" :: post) r = Ok f /\
                  f p = true) /\
    (forall want err rest ctrIds,
        Pod.AllContainersByID p = Ok ctrIds -> ctrIds <> [] ->
        define_NotHexRegex_MatchString want = true ->
        regexp_Compile want = Err err ->
        exists f, GeneratePodFilterFunc "ctr-ids" (want :: "" :: rest) r = Ok f /\
                  f p = false).
Proof.
  intros r p. split; [| split].
  - intros filterValues Hin. exists (filterId filterValues). split; [reflexivity |].
    apply filterId_true_iff. exists "". split; [exact Hin | apply idMatches_empty].
  - intros pre post ctrIds Hids Hne Hpre.
    exists (filterCtrIds (pre ++ "" :: post)). split; [reflexivity |].
    unfold filterCtrIds. rewrite Hids.
    apply ctrIdsLoop_app_true; [exact Hpre | now apply ctrIdsLoop_empty_value].
  - intros want err rest ctrIds Hids Hne Hx Hc.
    exists (filterCtrIds (want :: "" :: rest)). split; [reflexivity |].
    unfold filterCtrIds. rewrite Hids.
    now apply ctrIdsLoop_invalid_regex with (err := err).
Qed.

(** The failing input: the sample pod has three children, and the request
    holds the empty value behind the unclosed group "(". *)
Lemma empty_value_matches_unless_ctr_ids_stopped_witness :
  (exists f, @GeneratePodFilterFunc Sample.externals "id" ["("; ""] Sample.runtime = Ok f /\
             f Sample.web = true) /\
  (exists f, @GeneratePodFilterFunc Sample.externals "ctr-ids" ["abc.*"; ""] Sample.runtime = Ok f /\
             f Sample.empty = false /\ f Sample.web = true) /\
  (exists f, @GeneratePodFilterFunc Sample.externals "ctr-ids" ["("; ""] Sample.runtime = Ok f /\
             f Sample.web = false).
Proof.
  destruct (@empty_value_matches_unless_ctr_ids_stopped Sample.externals
              Sample.runtime Sample.web) as (Hid & _ & Hstop).
  split; [| split].
  - apply Hid. simpl. auto.
  - eexists. split; [reflexivity |]. split; reflexivity.
  - apply (Hstop "(" (errorString "error parsing regexp: (") []
             ["abc123"; "def456"; "0a1b2c"]); try reflexivity.
    discriminate.
Defined.

(** ** Further properties of the compiled predicates *)

(** X1.  A compiled network predicate selects a pod exactly when the pod
    has an infra container whose network enumeration succeeds and lists a
    name that is among the names captured at compile time. *)
Theorem network_predicate_matches_captured_names {E : Externals} :
  forall (filterValues : list string) (r : Runtime.t) (f : Pod.t -> bool) (p : Pod.t),
    GeneratePodFilterFunc "network" filterValues r = Ok f ->
    exists inputNetNames,
      resolveNetNames r filterValues [] = Ok inputNetNames /\
      (f p = true <->
       exists infra networks net,
         Pod.InfraContainer p = Ok infra /\ Container.Networks infra = Ok networks /\
         In net networks /\ In net inputNetNames).
Proof.
  intros filterValues r f p Hgen. rewrite Generate_network in Hgen.
  destruct (resolveNetNames r filterValues []) as [names | err]; same_predicate.
  exists names. split; [reflexivity | apply filterNetwork_true_iff].
Qed.

Lemma network_predicate_matches_captured_names_witness :
  exists f,
    @GeneratePodFilterFunc Sample.externals "network" ["bridge"; "ghost"] Sample.runtime = Ok f /\
    f Sample.web = true.
Proof.
  eexists. split; [reflexivity |].
  destruct (@network_predicate_matches_captured_names Sample.externals
              ["bridge"; "ghost"] Sample.runtime _ Sample.web eq_refl)
    as (names & Hnames & Hiff).
  apply Hiff. vm_compute in Hnames. injection Hnames as <-.
  exists (Sample.ctr "web-infra" (Ok ["bridge"])), ["bridge"], "bridge".
  split; [reflexivity |]. split; [reflexivity |]. split; simpl; auto.
Defined.

(** X2.  A compiled until predicate selects a pod exactly when the
    timestamp of the request computes and the pod was created strictly
    before it. *)
Theorem until_predicate_is_strictly_before {E : Externals} :
  forall (filterValues : list string) (r : Runtime.t),
  exists f,
    GeneratePodFilterFunc "until" filterValues r = Ok f /\
    forall p : Pod.t,
      f p = true <->
      exists until, util_ComputeUntilTimestamp filterValues = Ok until /\
                    (Pod.CreatedTime p < until)%Z.
Proof.
  intros filterValues r. exists (filterUntil filterValues). split; [reflexivity |].
  intros p. unfold filterUntil, Time_Before.
  destruct (util_ComputeUntilTimestamp filterValues) as [until | err].
  - destruct (Z.ltb_spec (Pod.CreatedTime p) until) as [Hlt | Hge]; split.
    + intros _. now exists until.
    + reflexivity.
    + discriminate.
    + intros (u & Hu & Hlt). injection Hu as <-. lia.
  - split; [discriminate |]. now intros (u & Hu & _).
Qed.

Example until_samples :
  @filterUntil Sample.externals ["101"] Sample.web = true /\
  @filterUntil Sample.externals ["100"] Sample.web = false /\
  @filterUntil Sample.externals ["soon"] Sample.web = false /\
  @filterUntil Sample.externals ["101"; "102"] Sample.web = false.
Proof. repeat split. Qed.

(** ** ctr-ids in full *)

Lemma existsb_idMatches_hex {E : Externals} (ctrIds : list string) (want : string) :
  define_NotHexRegex_MatchString want = false ->
  existsb (fun id => strings_HasPrefix id (strings_ToLower want)) ctrIds =
  existsb (fun id => idMatches id want) ctrIds.
Proof.
  intros Hx. induction ctrIds as [| id ids IH]; simpl; [reflexivity |].
  now rewrite IH, (idMatches_hex id want Hx).
Qed.

Lemma existsb_idMatches_regex {E : Externals} (ctrIds : list string) (want : string)
      (re : Regexp) :
  define_NotHexRegex_MatchString want = true ->
  regexp_Compile want = Ok re ->
  existsb (fun id => Regexp_MatchString re id) ctrIds =
  existsb (fun id => idMatches id want) ctrIds.
Proof.
  intros Hx Hc.
  assert (Hone : forall id, idMatches id want = Regexp_MatchString re id)
    by (intros id; unfold idMatches, regexp_MatchString; now rewrite Hx, Hc).
  induction ctrIds as [| id ids IH]; simpl; [reflexivity |].
  now rewrite IH, Hone.
Qed.

(** One step of the ctr-ids loop at a value that does not stop it. *)
Lemma ctrIdsLoop_step {E : Externals} (ctrIds : list string) (want : string)
      (rest : list string) :
  compiles want ->
  ctrIdsLoop ctrIds (want :: rest) =
  existsb (fun id => idMatches id want) ctrIds || ctrIdsLoop ctrIds rest.
Proof.
  intros Hw. destruct (define_NotHexRegex_MatchString want) eqn:Hx.
  - destruct (Hw Hx) as [re Hre].
    now rewrite (ctrIdsLoop_regex_step _ _ re _ Hx Hre),
      (existsb_idMatches_regex _ _ re Hx Hre).
  - now rewrite (ctrIdsLoop_hex_step _ _ _ Hx), (existsb_idMatches_hex _ _ Hx).
Qed.

Lemma not_compiles_stops {E : Externals} (want : string) :
  ~ compiles want ->
  exists err, define_NotHexRegex_MatchString want = true /\ regexp_Compile want = Err err.
Proof.
  intros Hn. unfold compiles in Hn.
  destruct (define_NotHexRegex_MatchString want).
  - destruct (regexp_Compile want) as [re | err]; [| now exists err].
    exfalso. apply Hn. intros _. now exists re.
  - exfalso. apply Hn. discriminate.
Qed.

Lemma compiles_dec {E : Externals} (want : string) : compiles want \/ ~ compiles want.
Proof.
  unfold compiles. destruct (define_NotHexRegex_MatchString want).
  - destruct (regexp_Compile want) as [re | err].
    + left. intros _. now exists re.
    + right. intros H. destruct (H eq_refl) as [re Hre]. discriminate Hre.
  - left. discriminate.
Qed.

Lemma ctrIdsLoop_true_iff {E : Externals} (ctrIds filterValues : list string) :
  ctrIdsLoop ctrIds filterValues = true <->
  exists pre want post id,
    filterValues = (pre ++ want :: post)%list /\ Forall compiles pre /\
    In id ctrIds /\ idMatches id want = true.
Proof.
  induction filterValues as [| v rest IH].
  - split; [discriminate |]. intros (pre & w & post & id & Heq & _). now destruct pre.
  - destruct (compiles_dec v) as [Hv | Hv].
    + rewrite (ctrIdsLoop_step _ _ _ Hv), orb_true_iff, IH, existsb_exists. split.
      * intros [(id & Hid & Hm) | (pre & w & post & id & -> & Hpre & Hid & Hm)].
        -- exists [], v, rest, id. repeat split; auto.
        -- exists (v :: pre), w, post, id. repeat split; auto.
      * intros (pre & w & post & id & Heq & Hpre & Hid & Hm).
        destruct pre as [| u pre]; simpl in Heq; injection Heq as <- ->.
        -- left. now exists id.
        -- right. exists pre, w, post, id. repeat split; auto. now inversion Hpre.
    + destruct (not_compiles_stops v Hv) as (err & Hx & Hc).
      rewrite (ctrIdsLoop_invalid_regex _ _ err _ Hx Hc). split; [discriminate |].
      intros (pre & w & post & id & Heq & Hpre & Hid & Hm).
      destruct pre as [| u pre]; simpl in Heq; injection Heq as <- ->.
      * rewrite (idMatches_invalid_regex _ _ err Hx Hc) in Hm. discriminate Hm.
      * inversion Hpre. contradiction.
Qed.

(** X3.  A ctr-ids predicate answers [true] exactly when the enumeration
    of children succeeds and some value matches some child identifier, by
    the rule of the id family, while every value before it is hex or
    compiles. *)
Theorem ctr_ids_matches_before_first_invalid_regex {E : Externals} :
  forall (filterValues : list string) (r : Runtime.t),
  exists f,
    GeneratePodFilterFunc "ctr-ids" filterValues r = Ok f /\
    forall p : Pod.t,
      f p = true <->
      exists ctrIds pre want post id,
        Pod.AllContainersByID p = Ok ctrIds /\
        filterValues = (pre ++ want :: post)%list /\ Forall compiles pre /\
        In id ctrIds /\ idMatches id want = true.
Proof.
  intros filterValues r. exists (filterCtrIds filterValues). split; [reflexivity |].
  intros p. unfold filterCtrIds.
  destruct (Pod.AllContainersByID p) as [ctrIds | err].
  - rewrite ctrIdsLoop_true_iff. split.
    + intros (pre & w & post & id & H). now exists ctrIds, pre, w, post, id.
    + intros (ids & pre & w & post & id & Hids & H). injection Hids as <-.
      now exists pre, w, post, id.
  - split; [discriminate |]. now intros (ids & pre & w & post & id & Hids & _).
Qed.

Lemma existsb_orb {A : Type} (g h : A -> bool) (l : list A) :
  existsb (fun x => g x || h x) l = existsb g l || existsb h l.
Proof.
  induction l as [| x l IH]; simpl; [reflexivity |].
  rewrite IH. destruct (g x), (h x), (existsb g l); reflexivity.
Qed.

Lemma existsb_pointwise {A : Type} (g h : A -> bool) (l : list A) :
  (forall x, g x = h x) -> existsb g l = existsb h l.
Proof.
  intros Hgh. induction l as [| x l IH]; simpl; [reflexivity |].
  now rewrite IH, Hgh.
Qed.

Lemma ctrIdsLoop_all_compile {E : Externals} (ctrIds filterValues : list string) :
  Forall compiles filterValues ->
  ctrIdsLoop ctrIds filterValues =
  existsb (fun id => existsb (fun want => idMatches id want) filterValues) ctrIds.
Proof.
  intros Hall. induction Hall as [| want rest Hw _ IH].
  - simpl. induction ctrIds as [| id ids IHids]; [reflexivity | exact IHids].
  - rewrite (ctrIdsLoop_step _ _ _ Hw), IH, <- existsb_orb. reflexivity.
Qed.

(** X4.  When every value of the request is hex or compiles, a ctr-ids
    request selects a pod exactly when the id request with the same values
    would select a pod that carries the identifier of one of its
    children. *)
Theorem ctr_ids_is_id_on_some_child {E : Externals} :
  forall (filterValues : list string) (r : Runtime.t) (p : Pod.t) (ctrIds : list string),
    Forall compiles filterValues ->
    Pod.AllContainersByID p = Ok ctrIds ->
    exists fctr fid,
      GeneratePodFilterFunc "ctr-ids" filterValues r = Ok fctr /\
      GeneratePodFilterFunc "id" filterValues r = Ok fid /\
      (fctr p = true <-> exists id, In id ctrIds /\ fid (withID id p) = true).
Proof.
  intros filterValues r p ctrIds Hall Hids.
  exists (filterCtrIds filterValues), (filterId filterValues).
  split; [reflexivity |]. split; [reflexivity |].
  unfold filterCtrIds. rewrite Hids, (ctrIdsLoop_all_compile _ _ Hall).
  apply existsb_exists.
Qed.

Lemma ctr_ids_is_id_on_some_child_witness :
  exists fctr fid,
    @GeneratePodFilterFunc Sample.externals "ctr-ids" ["f.1"; "DEF"] Sample.runtime = Ok fctr /\
    @GeneratePodFilterFunc Sample.externals "id" ["f.1"; "DEF"] Sample.runtime = Ok fid /\
    (fctr Sample.web = true <->
     exists id, In id ["abc123"; "def456"; "0a1b2c"] /\ fid (withID id Sample.web) = true).
Proof.
  apply (@ctr_ids_is_id_on_some_child Sample.externals ["f.1"; "DEF"] Sample.runtime
           Sample.web ["abc123"; "def456"; "0a1b2c"]).
  - repeat constructor; intros _; eexists; reflexivity.
  - reflexivity.
Defined.

(** ** Requests that grow, shrink or are renamed *)

Lemma resolveNetNames_acc (r : Runtime.t) (filterValues acc : list string) :
  resolveNetNames r filterValues acc =
  match resolveNetNames r filterValues [] with
  | Ok names => Ok (acc ++ names)%list
  | Err err => Err err
  end.
Proof.
  revert acc. induction filterValues as [| val rest IH]; intros acc; simpl.
  - now rewrite app_nil_r.
  - destruct (Runtime.NetworkInspect r val) as [net | err].
    + rewrite (IH (acc ++ [Network.Name net])%list), (IH [Network.Name net]).
      destruct (resolveNetNames r rest []); [| reflexivity].
      now rewrite <- app_assoc.
    + destruct (errors_Is err define_ErrNoSuchNetwork); [apply IH | reflexivity].
Qed.

Lemma resolveNetNames_app (r : Runtime.t) (a b acc : list string) :
  resolveNetNames r (a ++ b) acc =
  match resolveNetNames r a acc with
  | Ok names => resolveNetNames r b names
  | Err err => Err err
  end.
Proof.
  revert acc. induction a as [| val rest IH]; intros acc; simpl; [reflexivity |].
  destruct (Runtime.NetworkInspect r val) as [net | err]; [apply IH |].
  destruct (errors_Is err define_ErrNoSuchNetwork); [apply IH | reflexivity].
Qed.

Lemma StringInSlice_app (s : string) (a b : list string) :
  cutil_StringInSlice s (a ++ b) = cutil_StringInSlice s a || cutil_StringInSlice s b.
Proof. unfold cutil_StringInSlice. apply existsb_app. Qed.

Lemma filterNetwork_app (a b : list string) (p : Pod.t) :
  filterNetwork (a ++ b) p = filterNetwork a p || filterNetwork b p.
Proof.
  unfold filterNetwork.
  destruct (Pod.InfraContainer p) as [infra |]; [| reflexivity].
  destruct (Container.Networks infra) as [networks |]; [| reflexivity].
  destruct (length networks =? 0)%nat; [reflexivity |].
  rewrite <- existsb_orb. apply existsb_pointwise. intros net. apply StringInSlice_app.
Qed.

Lemma filterCtrStatus_app (a b : list string) (p : Pod.t) :
  filterCtrStatus (a ++ b) p = filterCtrStatus a p || filterCtrStatus b p.
Proof.
  unfold filterCtrStatus. destruct (Pod.Status p) as [ctrStatuses |]; [| reflexivity].
  rewrite <- existsb_orb. apply existsb_pointwise. intros st. apply existsb_app.
Qed.

Lemma filterStatus_app (a b : list string) (p : Pod.t) :
  filterStatus (a ++ b) p = filterStatus a p || filterStatus b p.
Proof.
  unfold filterStatus. destruct (Pod.GetPodStatus p) as [status |]; [| reflexivity].
  apply existsb_app.
Qed.

Lemma checkValues_app (valid : list string) (what : string) (a b : list string) :
  checkValues valid what a = None -> checkValues valid what b = None ->
  checkValues valid what (a ++ b) = None.
Proof.
  rewrite !checkValues_None_iff. intros Ha Hb v Hv.
  apply in_app_or in Hv. destruct Hv; auto.
Qed.

(** X5.  For the families id, ctr-status, status and network the values
    of a request are alternatives: when the requests [a] and [b] compile,
    so does the request [a ++ b], and its predicate is the disjunction of
    theirs. *)
Theorem values_are_alternatives {E : Externals} :
  forall (filter : string) (a b : list string) (r : Runtime.t)
         (fa fb : Pod.t -> bool),
    In filter ["id"; "ctr-status"; "status"; "network"] ->
    GeneratePodFilterFunc filter a r = Ok fa ->
    GeneratePodFilterFunc filter b r = Ok fb ->
    exists fab,
      GeneratePodFilterFunc filter (a ++ b) r = Ok fab /\
      forall p : Pod.t, fab p = fa p || fb p.
Proof.
  intros filter a b r fa fb Hin Ha Hb. simpl in Hin.
  destruct Hin as [<- | [<- | [<- | [<- | []]]]].
  - rewrite Generate_id in *. do 2 same_predicate.
    exists (filterId (a ++ b)). split; [reflexivity |].
    intros p. unfold filterId. apply existsb_app.
  - rewrite Generate_ctr_status in *.
    destruct (checkValues ctrStatusValues _ a) eqn:Ca; [discriminate Ha |].
    destruct (checkValues ctrStatusValues _ b) eqn:Cb; [discriminate Hb |].
    rewrite (checkValues_app _ _ _ _ Ca Cb). do 2 same_predicate.
    exists (filterCtrStatus (a ++ b)). split; [reflexivity |].
    intros p. apply filterCtrStatus_app.
  - rewrite Generate_status in *.
    destruct (checkValues podStatusValues _ a) eqn:Ca; [discriminate Ha |].
    destruct (checkValues podStatusValues _ b) eqn:Cb; [discriminate Hb |].
    rewrite (checkValues_app _ _ _ _ Ca Cb). do 2 same_predicate.
    exists (filterStatus (a ++ b)). split; [reflexivity |].
    intros p. apply filterStatus_app.
  - rewrite Generate_network in *. rewrite resolveNetNames_app.
    destruct (resolveNetNames r a []) as [na |]; [| discriminate Ha].
    rewrite (resolveNetNames_acc r b na).
    destruct (resolveNetNames r b []) as [nb |]; [| discriminate Hb].
    do 2 same_predicate.
    exists (filterNetwork (na ++ nb)). split; [reflexivity |].
    intros p. apply filterNetwork_app.
Qed.

Lemma values_are_alternatives_witness :
  exists fab,
    @GeneratePodFilterFunc Sample.externals "network" (["ghost"] ++ ["bridge"]) Sample.runtime
    = Ok fab /\
    forall p : Pod.t, fab p = filterNetwork [] p || filterNetwork ["bridge"] p.
Proof.
  apply (@values_are_alternatives Sample.externals "network" ["ghost"] ["bridge"]
           Sample.runtime).
  - simpl. auto.
  - reflexivity.
  - reflexivity.
Defined.

(** X6.  A request without values compiles for the families ctr-ids,
    ctr-number, ctr-status, id, status and network, and its predicate
    selects no pod. *)
Theorem empty_request_selects_nothing {E : Externals} :
  forall (filter : string) (r : Runtime.t),
    In filter scanFamilies ->
    exists f,
      GeneratePodFilterFunc filter [] r = Ok f /\
      forall p : Pod.t, f p = false.
Proof.
  intros filter r Hin. unfold scanFamilies in Hin. simpl in Hin.
  destruct Hin as [<- | [<- | [<- | [<- | [<- | [<- | []]]]]]];
    eexists; (split; [reflexivity |]); intros p.
  - unfold filterCtrIds. now destruct (Pod.AllContainersByID p).
  - unfold filterCtrNumber. now destruct (Pod.AllContainersByID p).
  - unfold filterCtrStatus. destruct (Pod.Status p) as [sts |]; [| reflexivity].
    induction sts as [| st sts IH]; [reflexivity | exact IH].
  - reflexivity.
  - unfold filterStatus. now destruct (Pod.GetPodStatus p).
  - apply filterNetwork_nil.
Qed.

Lemma empty_request_selects_nothing_witness :
  exists f,
    @GeneratePodFilterFunc Sample.externals "ctr-status" [] Sample.runtime = Ok f /\
    forall p : Pod.t, f p = false.
Proof.
  apply (@empty_request_selects_nothing Sample.externals "ctr-status" Sample.runtime).
  unfold scanFamilies. simpl. auto.
Defined.

Lemma ctrStatusValue_idempotent (filterValue : string) :
  ctrStatusValue (ctrStatusValue filterValue) = ctrStatusValue filterValue.
Proof.
  unfold ctrStatusValue. destruct (String.eqb_spec filterValue "stopped") as [-> | Hne].
  - reflexivity.
  - now destruct (String.eqb_spec filterValue "stopped").
Qed.

Lemma ctrStatusValue_valid (filterValue : string) :
  In filterValue ctrStatusValues -> In (ctrStatusValue filterValue) ctrStatusValues.
Proof.
  unfold ctrStatusValue. destruct (String.eqb_spec filterValue "stopped") as [-> | Hne].
  - intros _. simpl. tauto.
  - trivial.
Qed.

Lemma filterCtrStatus_renamed (filterValues : list string) (p : Pod.t) :
  filterCtrStatus (map ctrStatusValue filterValues) p = filterCtrStatus filterValues p.
Proof.
  unfold filterCtrStatus. destruct (Pod.Status p) as [sts |]; [| reflexivity].
  apply existsb_pointwise. intros st.
  induction filterValues as [| v vs IH]; simpl; [reflexivity |].
  now rewrite IH, ctrStatusValue_idempotent.
Qed.

(** X7.  In a ctr-status request "stopped" and "exited" are the same
    query: writing exited for every stopped gives a request that compiles
    whenever the original does, to a predicate with the same answers. *)
Theorem ctr_status_stopped_is_exited {E : Externals} :
  forall (filterValues : list string) (r : Runtime.t) (f : Pod.t -> bool),
    GeneratePodFilterFunc "ctr-status" filterValues r = Ok f ->
    ctrStatusValue "stopped" = "exited" /\
    (forall v, v <> "stopped" -> ctrStatusValue v = v) /\
    exists g,
      GeneratePodFilterFunc "ctr-status" (map ctrStatusValue filterValues) r = Ok g /\
      forall p : Pod.t, g p = f p.
Proof.
  intros filterValues r f Hgen. split; [reflexivity |]. split.
  - intros v Hv. unfold ctrStatusValue. now destruct (String.eqb_spec v "stopped").
  - rewrite Generate_ctr_status in *.
    destruct (checkValues ctrStatusValues _ filterValues) eqn:Hc; [discriminate Hgen |].
    same_predicate.
    assert (Hm : checkValues ctrStatusValues " is not a valid status"
                             (map ctrStatusValue filterValues) = None).
    { apply checkValues_None_iff. intros v Hv. apply in_map_iff in Hv.
      destruct Hv as (u & <- & Hu). apply ctrStatusValue_valid.
      now apply (proj1 (checkValues_None_iff _ _ _) Hc). }
    rewrite Hm. exists (filterCtrStatus (map ctrStatusValue filterValues)).
    split; [reflexivity |]. intros p. apply filterCtrStatus_renamed.
Qed.

Lemma ctr_status_stopped_is_exited_witness :
  exists g,
    @GeneratePodFilterFunc Sample.externals "ctr-status"
      (map ctrStatusValue ["stopped"; "paused"]) Sample.runtime = Ok g /\
    forall p : Pod.t, g p = filterCtrStatus ["stopped"; "paused"] p.
Proof.
  apply (@ctr_status_stopped_is_exited Sample.externals ["stopped"; "paused"]
           Sample.runtime).
  reflexivity.
Defined.

(** X8.  A ctr-status predicate looks at the children only through the set
    of their normalized state names: two pods whose children show the same
    names, in any order and any number, get the same answer; in particular
    a stopped child counts as an exited one and a configured child as a
    created one. *)
Theorem ctr_status_sees_only_normalized_names {E : Externals} :
  forall (filterValues : list string) (r : Runtime.t) (f : Pod.t -> bool)
         (p q : Pod.t) (ps qs : list define_ContainerStatus),
    GeneratePodFilterFunc "ctr-status" filterValues r = Ok f ->
    Pod.Status p = Ok ps -> Pod.Status q = Ok qs ->
    (forall name, In name (normalizedStates ps) <-> In name (normalizedStates qs)) ->
    f p = f q.
Proof.
  intros filterValues r f p q ps qs Hgen Hp Hq Hsame.
  rewrite Generate_ctr_status in Hgen.
  destruct (checkValues ctrStatusValues _ filterValues); same_predicate.
  assert (Hone : forall a b la lb,
             Pod.Status a = Ok la -> Pod.Status b = Ok lb ->
             (forall name, In name (normalizedStates la) -> In name (normalizedStates lb)) ->
             filterCtrStatus filterValues a = true ->
             filterCtrStatus filterValues b = true).
  { intros a b la lb Ha Hb Hsub H. apply filterCtrStatus_true_iff in H.
    destruct H as (sts & st & v & Hsts & Hst & Hv & Heq).
    rewrite Ha in Hsts. injection Hsts as <-.
    assert (Hin : In (ctrStatusState st) (normalizedStates lb))
      by (apply Hsub, in_map, Hst).
    apply in_map_iff in Hin. destruct Hin as (st' & Hname & Hst').
    apply filterCtrStatus_true_iff. exists lb, st', v.
    repeat split; try assumption. congruence. }
  destruct (filterCtrStatus filterValues p) eqn:Fp.
  - symmetry. apply (Hone p q ps qs Hp Hq); [intros n; apply Hsame | exact Fp].
  - destruct (filterCtrStatus filterValues q) eqn:Fq; [| reflexivity].
    rewrite <- Fp. apply (Hone q p qs ps Hq Hp); [intros n; apply Hsame | exact Fq].
Qed.

Lemma ctr_status_sees_only_normalized_names_witness :
  exists f,
    @GeneratePodFilterFunc Sample.externals "ctr-status" ["created"; "paused"] Sample.runtime
    = Ok f /\
    f Sample.web = f sampleRestarted.
Proof.
  eexists. split; [reflexivity |].
  apply (@ctr_status_sees_only_normalized_names Sample.externals ["created"; "paused"]
           Sample.runtime _ Sample.web sampleRestarted
           [ContainerStateConfigured; ContainerStateRunning; ContainerStateStopped]
           [ContainerStateExited; ContainerStateCreated; ContainerStateRunning;
            ContainerStateRunning]);
    try reflexivity.
  intros name. simpl. tauto.
Defined.

(** ** Options of the events endpoint *)

Section Events.
Import EventsOptions.
Variable marshal : FilterMap -> result string.

Lemma Values_lookup_Set_same (v : url_Values) (key value : string) :
  Values_lookup (Values_Set v key value) key = Some [value].
Proof. unfold Values_Set. simpl. now rewrite String.eqb_refl. Qed.

Lemma Values_lookup_delete_other (v : url_Values) (key other : string) :
  key <> other -> Values_lookup (Values_delete v key) other = Values_lookup v other.
Proof.
  intros Hne. induction v as [| [k vs] rest IH]; simpl; [reflexivity |].
  destruct (String.eqb_spec k key) as [-> | Hk]; simpl.
  - rewrite IH. now destruct (String.eqb_spec key other).
  - now rewrite IH.
Qed.

Lemma Values_lookup_Set_other (v : url_Values) (key value other : string) :
  key <> other -> Values_lookup (Values_Set v key value) other = Values_lookup v other.
Proof.
  intros Hne. unfold Values_Set. simpl.
  destruct (String.eqb_spec key other) as [-> | _]; [contradiction |].
  now apply Values_lookup_delete_other.
Qed.

(** Every run of [ToParams] on options that are not nil: the encoder's
    error if the map is set and cannot be encoded, the matching parameters
    otherwise. *)
Lemma ToParams_cases (o : t) :
  match Filters o with
  | Some m =>
      match marshal m with
      | Err err => ToParams marshal (Some o) = Some (Err err)
      | Ok str => exists params, ToParams marshal (Some o) = Some (Ok params) /\
                                 paramsMatch o (Some str) params
      end
  | None => exists params, ToParams marshal (Some o) = Some (Ok params) /\
                           paramsMatch o None params
  end.
Proof.
  assert (Hkey : forall (params : url_Values) key,
             (forall k, In k (map fst params) -> In k fieldNames) ->
             ~ In key fieldNames -> Values_lookup params key = None).
  { intros params key Hsub Hnot. induction params as [| [k vs] rest IH]; [reflexivity |].
    simpl. destruct (String.eqb_spec k key) as [-> | _].
    - exfalso. apply Hnot, Hsub. now left.
    - apply IH. intros k' Hk'. apply Hsub. now right. }
  destruct o as [filters since stream until_]. simpl.
  destruct filters as [m |].
  - destruct (marshal m) as [str | err] eqn:Hm.
    + destruct since as [since |], stream as [stream |], until_ as [until_ |];
        eexists;
        (split; [reflexivity |]);
        unfold paramsMatch;
        (split; [reflexivity | split; [reflexivity | split; [reflexivity |
         split; [reflexivity |]]]]);
        intros key Hnot; (apply Hkey; [| exact Hnot]);
        unfold fieldNames; simpl; intros k Hk; tauto.
    + reflexivity.
  - destruct since as [since |], stream as [stream |], until_ as [until_ |];
      eexists;
      (split; [reflexivity |]);
      unfold paramsMatch;
      (split; [reflexivity | split; [reflexivity | split; [reflexivity |
       split; [reflexivity |]]]]);
      intros key Hnot; (apply Hkey; [| exact Hnot]);
      unfold fieldNames; simpl; intros k Hk; tauto.
Qed.

End Events.

(** X9.  [ToParams] never panics, although it calls [Changed], which
    panics on a name that is no field.  It returns an error exactly when
    the options are not nil, the filter map is set and the JSON encoder
    rejects it, and the error is then the encoder's; nil options give the
    empty parameters. *)
Theorem ToParams_fails_only_in_the_encoder :
  forall (marshal : FilterMap -> result string) (o : option EventsOptions.t),
    (exists outcome, EventsOptions.ToParams marshal o = Some outcome) /\
    (forall err,
        EventsOptions.ToParams marshal o = Some (Err err) <->
        exists v m, o = Some v /\ EventsOptions.Filters v = Some m /\ marshal m = Err err) /\
    (o = None -> EventsOptions.ToParams marshal o = Some (Ok [])).
Proof.
  intros marshal [v |].
  - pose proof (ToParams_cases marshal v) as H.
    destruct (EventsOptions.Filters v) as [m |] eqn:Hf.
    + destruct (marshal m) as [str | e] eqn:Hm.
      * destruct H as (params & -> & _). split; [eauto |]. split; [| discriminate].
        intros err. split; [discriminate |].
        intros (v' & m' & Hv & Hf' & Hm'). injection Hv as <-. congruence.
      * rewrite H. split; [eauto |]. split; [| discriminate].
        intros err. split.
        -- intros Heq. injection Heq as <-. now exists v, m.
        -- intros (v' & m' & Hv & Hf' & Hm'). injection Hv as <-. congruence.
    + destruct H as (params & -> & _). split; [eauto |]. split; [| discriminate].
      intros err. split; [discriminate |].
      intros (v' & m' & Hv & Hf' & _). injection Hv as <-. congruence.
  - split; [now exists (Ok []) |]. split; [| reflexivity].
    intros err. split; [discriminate |]. now intros (v & m & Hv & _).
Qed.

(** X10.  When [ToParams] succeeds on options that are not nil, the
    parameters hold exactly one key for every field that is set, spelled as
    the Go field name: "Since" and "Until" hold the string, "Stream" holds
    "true" or "false", "Filters" holds the encoder's output for the map;
    a field that is nil has no key, and there is no other key. *)
Theorem ToParams_has_one_key_per_set_field :
  forall (marshal : FilterMap -> result string) (o : EventsOptions.t)
         (params : url_Values),
    EventsOptions.ToParams marshal (Some o) = Some (Ok params) ->
    (match EventsOptions.Filters o with
     | Some m => exists str, marshal m = Ok str /\
                             Values_lookup params "Filters" = Some [str]
     | None => Values_lookup params "Filters" = None
     end) /\
    Values_lookup params "Since" =
      option_map (fun str => [str]) (EventsOptions.Since o) /\
    Values_lookup params "Stream" =
      option_map (fun b => [strconv_FormatBool b]) (EventsOptions.Stream o) /\
    Values_lookup params "Until" =
      option_map (fun str => [str]) (EventsOptions.Until o) /\
    (forall key, ~ In key ["Filters"; "Since"; "Stream"; "Until"] ->
                 Values_lookup params key = None).
Proof.
  intros marshal o params Hrun.
  pose proof (ToParams_cases marshal o) as H.
  destruct (EventsOptions.Filters o) as [m |].
  - destruct (marshal m) as [str | err].
    + destruct H as (params' & Heq & Hf & Hrest). rewrite Heq in Hrun.
      injection Hrun as <-. split; [now exists str | exact Hrest].
    + rewrite H in Hrun. discriminate Hrun.
  - destruct H as (params' & Heq & Hf & Hrest). rewrite Heq in Hrun.
    injection Hrun as <-. split; [exact Hf | exact Hrest].
Qed.

Lemma ToParams_has_one_key_per_set_field_witness :
  exists params,
    EventsOptions.ToParams sampleMarshal (Some sampleOptions) = Some (Ok params) /\
    Values_lookup params "Filters" = Some ["event,pod"] /\
    Values_lookup params "Since" = Some ["2020-12-17"] /\
    Values_lookup params "Stream" = Some ["false"] /\
    Values_lookup params "Until" = None /\
    Values_lookup params "since" = None.
Proof.
  eexists. split; [reflexivity |].
  destruct (ToParams_has_one_key_per_set_field sampleMarshal sampleOptions _ eq_refl)
    as (Hf & Hsince & Hstream & Huntil & Hother).
  split; [| split; [exact Hsince | split; [exact Hstream | split; [exact Huntil |]]]].
  - destruct Hf as (str & Hm & Hl). vm_compute in Hm. injection Hm as <-. exact Hl.
  - apply Hother. simpl. intros H.
    repeat (destruct H as [H | H]; [discriminate H |]). exact H.
Defined.

Lemma Values_Get_lookup (params : url_Values) (key value : string) :
  Values_lookup params key = Some [value] -> Values_Get params key = value.
Proof. intros H. unfold Values_Get. now rewrite H. Qed.

Lemma Values_Get_absent (params : url_Values) (key : string) :
  Values_lookup params key = None -> Values_Get params key = "".
Proof. intros H. unfold Values_Get. now rewrite H. Qed.

(** What a successful run leaves in the parameters. *)
Lemma ToParams_Ok_matches (marshal : FilterMap -> result string)
      (o : EventsOptions.t) (params : url_Values) :
  EventsOptions.ToParams marshal (Some o) = Some (Ok params) ->
  exists filters, paramsMatch o filters params /\
                  (filters = None <-> EventsOptions.Filters o = None).
Proof.
  intros Hrun. pose proof (ToParams_cases marshal o) as H.
  destruct (EventsOptions.Filters o) as [m |].
  - destruct (marshal m) as [str | err].
    + destruct H as (params' & Heq & Hm). rewrite Heq in Hrun. injection Hrun as <-.
      exists (Some str). split; [exact Hm |]. split; discriminate.
    + rewrite H in Hrun. discriminate Hrun.
  - destruct H as (params' & Heq & Hm). rewrite Heq in Hrun. injection Hrun as <-.
    exists None. split; [exact Hm |]. split; reflexivity.
Qed.

(** X11.  Read back with [Get], the parameters agree with the getters on
    "Since" and "Until" whether or not the field is set (both give the
    empty string for a nil field), and on "Stream" when it is set; a nil
    [Stream] leaves no parameter, while [GetStream] answers false. *)
Theorem query_parameters_agree_with_getters :
  forall (marshal : FilterMap -> result string) (o : EventsOptions.t)
         (params : url_Values),
    EventsOptions.ToParams marshal (Some o) = Some (Ok params) ->
    Values_Get params "Since" = EventsOptions.GetSince o /\
    Values_Get params "Until" = EventsOptions.GetUntil o /\
    (EventsOptions.Changed o "Stream" = Some true ->
     Values_Get params "Stream" = strconv_FormatBool (EventsOptions.GetStream o)) /\
    (EventsOptions.Changed o "Stream" = Some false ->
     Values_Get params "Stream" = "" /\ EventsOptions.GetStream o = false).
Proof.
  intros marshal o params Hrun.
  destruct (ToParams_Ok_matches marshal o params Hrun)
    as (filters & (_ & Hsince & Hstream & Huntil & _) & _).
  destruct o as [fs since stream until_]. simpl in *.
  unfold EventsOptions.GetSince, EventsOptions.GetUntil, EventsOptions.GetStream,
    EventsOptions.Changed. simpl.
  split; [| split; [| split]].
  - destruct since; [now apply Values_Get_lookup | now apply Values_Get_absent].
  - destruct until_; [now apply Values_Get_lookup | now apply Values_Get_absent].
  - destruct stream; [intros _; now apply Values_Get_lookup | discriminate].
  - destruct stream; [discriminate |]. intros _.
    split; [now apply Values_Get_absent | reflexivity].
Qed.

Lemma query_parameters_agree_with_getters_witness :
  exists params,
    EventsOptions.ToParams sampleMarshal (Some sampleOptions) = Some (Ok params) /\
    Values_Get params "Since" = "2020-12-17" /\
    Values_Get params "Until" = "" /\
    Values_Get params "Stream" = "false".
Proof.
  eexists. split; [reflexivity |].
  destruct (query_parameters_agree_with_getters sampleMarshal sampleOptions _ eq_refl)
    as (Hsince & Huntil & Hstream & _).
  split; [exact Hsince | split; [exact Huntil | apply Hstream; reflexivity]].
Defined.

(** Two runs agree on a key that is no field, and on a field the two
    options agree on. *)
Lemma paramsMatch_frame (o o' : EventsOptions.t) (filters filters' : option string)
      (params params' : url_Values) (changed key : string) :
  paramsMatch o filters params -> paramsMatch o' filters' params' ->
  (changed = "Filters" \/ filters = filters') ->
  (changed = "Since" \/ EventsOptions.Since o = EventsOptions.Since o') ->
  (changed = "Stream" \/ EventsOptions.Stream o = EventsOptions.Stream o') ->
  (changed = "Until" \/ EventsOptions.Until o = EventsOptions.Until o') ->
  key <> changed ->
  Values_lookup params key = Values_lookup params' key.
Proof.
  intros (Hf & Hs & Hb & Hu & Hk) (Hf' & Hs' & Hb' & Hu' & Hk') If Is Ib Iu Hne.
  destruct (in_dec string_dec key EventsOptions.fieldNames) as [Hin | Hnot].
  - simpl in Hin. destruct Hin as [<- | [<- | [<- | [<- | []]]]].
    + destruct If as [-> | ->]; [contradiction | congruence].
    + destruct Is as [-> | Heq]; [contradiction | congruence].
    + destruct Ib as [-> | Heq]; [contradiction | congruence].
    + destruct Iu as [-> | Heq]; [contradiction | congruence].
  - now rewrite Hk, Hk'.
Qed.

(** X12.  A setter changes one parameter and no other: after [WithSince],
    [WithUntil] or [WithStream] the query holds the new value under the
    field's name, and every other key holds what it held for the options
    before. *)
Theorem setters_change_one_parameter :
  forall (marshal : FilterMap -> result string) (o : EventsOptions.t)
         (before : url_Values),
    EventsOptions.ToParams marshal (Some o) = Some (Ok before) ->
    (forall value, exists after,
        EventsOptions.ToParams marshal (Some (EventsOptions.WithSince value o))
        = Some (Ok after) /\
        Values_lookup after "Since" = Some [value] /\
        forall key, key <> "Since" -> Values_lookup after key = Values_lookup before key) /\
    (forall value, exists after,
        EventsOptions.ToParams marshal (Some (EventsOptions.WithUntil value o))
        = Some (Ok after) /\
        Values_lookup after "Until" = Some [value] /\
        forall key, key <> "Until" -> Values_lookup after key = Values_lookup before key) /\
    (forall value, exists after,
        EventsOptions.ToParams marshal (Some (EventsOptions.WithStream value o))
        = Some (Ok after) /\
        Values_lookup after "Stream" = Some [strconv_FormatBool value] /\
        forall key, key <> "Stream" -> Values_lookup after key = Values_lookup before key).
Proof.
  intros marshal o before Hrun.
  pose proof (ToParams_cases marshal o) as Ho.
  assert (Hstep : forall o' changed,
             EventsOptions.Filters o' = EventsOptions.Filters o ->
             (changed = "Since" \/ EventsOptions.Since o' = EventsOptions.Since o) ->
             (changed = "Stream" \/ EventsOptions.Stream o' = EventsOptions.Stream o) ->
             (changed = "Until" \/ EventsOptions.Until o' = EventsOptions.Until o) ->
             exists after filters,
               EventsOptions.ToParams marshal (Some o') = Some (Ok after) /\
               paramsMatch o' filters after /\
               forall key, key <> changed ->
                           Values_lookup after key = Values_lookup before key).
  { intros o' changed Hf Is Ib Iu.
    pose proof (ToParams_cases marshal o') as Ho'. rewrite Hf in Ho'.
    destruct (EventsOptions.Filters o) as [m |].
    - destruct (marshal m) as [str | err].
      + destruct Ho as (p0 & Heq & Hm0). rewrite Heq in Hrun. injection Hrun as <-.
        destruct Ho' as (after & Hafter & Hm).
        exists after, (Some str). split; [exact Hafter | split; [exact Hm |]].
        intros key Hne.
        apply (paramsMatch_frame o' o (Some str) (Some str) after p0 changed key);
          auto.
      + rewrite Ho in Hrun. discriminate Hrun.
    - destruct Ho as (p0 & Heq & Hm0). rewrite Heq in Hrun. injection Hrun as <-.
      destruct Ho' as (after & Hafter & Hm).
      exists after, None. split; [exact Hafter | split; [exact Hm |]].
      intros key Hne.
      apply (paramsMatch_frame o' o None None after p0 changed key); auto. }
  split; [| split]; intros value.
  - destruct (Hstep (EventsOptions.WithSince value o) "Since")
      as (after & filters & Hafter & (_ & Hs & _) & Hframe); auto.
    exists after. split; [exact Hafter | split; assumption].
  - destruct (Hstep (EventsOptions.WithUntil value o) "Until")
      as (after & filters & Hafter & (_ & _ & _ & Hu & _) & Hframe); auto.
    exists after. split; [exact Hafter | split; assumption].
  - destruct (Hstep (EventsOptions.WithStream value o) "Stream")
      as (after & filters & Hafter & (_ & _ & Hb & _) & Hframe); auto.
    exists after. split; [exact Hafter | split; assumption].
Qed.

Lemma setters_change_one_parameter_witness :
  exists after,
    EventsOptions.ToParams sampleMarshal
      (Some (EventsOptions.WithUntil "2021-01-01" sampleOptions)) = Some (Ok after) /\
    Values_lookup after "Until" = Some ["2021-01-01"] /\
    Values_lookup after "Since" = Some ["2020-12-17"].
Proof.
  destruct (setters_change_one_parameter sampleMarshal sampleOptions _ eq_refl)
    as (_ & Huntil & _).
  destruct (Huntil "2021-01-01") as (after & Hrun & Hu & Hframe).
  exists after. split; [exact Hrun |]. split; [exact Hu |].
  rewrite Hframe by discriminate. reflexivity.
Defined.

(** X13.  [Changed] panics exactly on a name that is none of Filters,
    Since, Stream, Until.  On a field it tells whether the field holds a
    value: false for all four on fresh options, true after the field's
    setter, except that [WithFilters] with a nil map leaves it false. *)
Theorem Changed_tells_set_fields_apart :
  forall (o : EventsOptions.t) (fieldName : string),
    (EventsOptions.Changed o fieldName = None <->
     ~ In fieldName ["Filters"; "Since"; "Stream"; "Until"]) /\
    (In fieldName ["Filters"; "Since"; "Stream"; "Until"] ->
     EventsOptions.Changed EventsOptions.zero fieldName = Some false) /\
    (forall value, EventsOptions.Changed (EventsOptions.WithSince value o) "Since" = Some true) /\
    (forall value, EventsOptions.Changed (EventsOptions.WithUntil value o) "Until" = Some true) /\
    (forall value, EventsOptions.Changed (EventsOptions.WithStream value o) "Stream" = Some true) /\
    (forall m, EventsOptions.Changed (EventsOptions.WithFilters (Some m) o) "Filters" = Some true) /\
    EventsOptions.Changed (EventsOptions.WithFilters None o) "Filters" = Some false.
Proof.
  intros o fieldName. split; [| split; [| repeat split]].
  - unfold EventsOptions.Changed, EventsOptions.FieldByName. simpl.
    repeat match goal with
           | |- context [String.eqb fieldName ?s] =>
               destruct (String.eqb_spec fieldName s) as [-> | ?]
           end;
      try (split; [discriminate | intros H; exfalso; apply H; tauto]).
    split; [intros _; intuition congruence | reflexivity].
  - simpl. intros [<- | [<- | [<- | [<- | []]]]]; reflexivity.
Qed.
